(** * Purple: the scanner, LLVM-IR emission and the clang probes

    A shallow embedding of the scanner ([scan.c]), of [src/translate/llvm.c]
    and of the probing functions of [src/utils/clang.c], with the properties
    of the scanner, the register allocator, the loaded-register list, the
    instruction emitters and the probes. *)

From Equations.Prop Require Import Equations Logic.
From stdpp Require Import base numbers list sorting strings pretty.
From Stdlib Require Import Ascii Lia.

Open Scope N_scope.

(** ** Return codes and fatal errors

    A computation that may end the process yields either a value and the
    next state, or the return code together with the state at the abort. *)

Inductive ReturnCode : Type :=
  | RC_ERROR
  | RC_MEMORY_ERROR
  | RC_FILE_ERROR
  | RC_COMPILER_ERROR.

Inductive Result (S A : Type) : Type :=
  | Ok (a : A) (st : S)
  | Fatal (rc : ReturnCode) (st : S).

Arguments Ok {S A} a st.
Arguments Fatal {S A} rc st.

(** Modelled from the spec: [fatal(rc, ...)] is defined in utils/logging.c,
    of which this development has no source. Fatal conditions "abort the
    entire compilation immediately with a categorized exit code and
    message". *)
Definition fatal {S A : Type} (rc : ReturnCode) (st : S) : Result S A := Fatal rc st.

Definition bind {S A B : Type} (m : S -> Result S A) (k : A -> S -> Result S B)
  : S -> Result S B :=
  fun st => match m st with
            | Ok a st' => k a st'
            | Fatal rc st' => Fatal rc st'
            end.

Definition final_state {S A : Type} (r : Result S A) : S :=
  match r with
  | Ok _ st => st
  | Fatal _ st => st
  end.

(** ** Tokens and numbers (scan.h, types/number.h) *)

Inductive TokenType : Type :=
  | T_EOF
  | T_PLUS
  | T_MINUS
  | T_STAR
  | T_SLASH
  | T_EXPONENT
  | T_INTEGER_LITERAL
  | T_SEMICOLON
  | T_PRINT.

Inductive NumberType : Type :=
  | NT_INT32.

Definition numberTypeByteSizes (t : NumberType) : Z :=
  match t with
  | NT_INT32 => 4%Z
  end.

Definition numberTypeFormatStrings (t : NumberType) : string :=
  match t with
  | NT_INT32 => "%d"
  end.

Record Number : Type := NUMBER {
  number_type : NumberType;
  int_value : Z
}.

Definition NUMBER_INT32 (v : Z) : Number := NUMBER NT_INT32 v.

(** A text between double quotes, as the formats of the messages have
    their conversions. *)
Definition quoted (s : string) : string :=
  String (ascii_of_nat 34) s +:+ String (ascii_of_nat 34) "".

Module Llvm.

(** ** Registers

    [type_register] is printed with [%llu] throughout: an unsigned 64-bit
    integer, here an [N] with the wrap-around written where the code
    computes with it. *)

Definition type_register : Type := N.

Definition REGISTER_MODULUS : N := 2 ^ 64.

Definition wrap (n : N) : type_register := n mod REGISTER_MODULUS.

(** [LLVMValue]: a register index tagged as a value or as a stack address,
    as built by the macros [LLVMVALUE_VIRTUAL_REGISTER] and
    [LLVMVALUE_VIRTUAL_REGISTER_POINTER]. *)

Inductive LLVMValueType : Type :=
  | LLVMVALUETYPE_VIRTUAL_REGISTER
  | LLVMVALUETYPE_VIRTUAL_REGISTER_POINTER.

Record LLVMValue : Type := mkLLVMValue {
  value_type : LLVMValueType;
  virtual_register_index : type_register
}.

Definition LLVMVALUE_VIRTUAL_REGISTER (r : type_register) : LLVMValue :=
  mkLLVMValue LLVMVALUETYPE_VIRTUAL_REGISTER r.

Definition LLVMVALUE_VIRTUAL_REGISTER_POINTER (r : type_register) : LLVMValue :=
  mkLLVMValue LLVMVALUETYPE_VIRTUAL_REGISTER_POINTER r.

(** A node of a stack-entry list; the [next] pointer is the list's tail. *)

Record LLVMStackEntryNode : Type := mkStackEntry {
  reg : type_register;
  type : NumberType;
  align_bytes : Z
}.

(** ** The instructions written to [D_LLVM_FILE]

    Each constructor is one line of the function body; [render] below gives
    its text. *)

Inductive Mnemonic : Type :=
  | ADD_NSW
  | SUB_NSW
  | MUL_NSW
  | UDIV.

Inductive Instr : Type :=
  | ILoad (dst src : type_register)
  | IAlloca (r : type_register) (t : NumberType) (align : Z)
  | IBinary (m : Mnemonic) (dst : type_register) (l r : type_register)
  | IStore (t : NumberType) (v : Z) (dst : type_register)
  | ICallPrintf (print_vr : type_register).

Section Rendering.

(** The macros [TAB] and [NEWLINE] (utils/formatting.h) and the table
    [numberTypeLLVMReprs] (translate/llvm.h) are declared in headers of
    which this development has no source: they are parameters. *)
Variables TAB NEWLINE : string.
Variable numberTypeLLVMReprs : NumberType -> string.

Definition llu (r : type_register) : string := pretty r.

Definition mnemonic_text (m : Mnemonic) : string :=
  match m with
  | ADD_NSW => "add nsw i32"
  | SUB_NSW => "sub nsw i32"
  | MUL_NSW => "mul nsw i32"
  | UDIV => "udiv i32"
  end.

(** [fprintf] of a number with one of [numberTypeFormatStrings]. *)
Definition format_number (fmt : string) (v : Z) : string :=
  if String.eqb fmt "%d" then pretty v else fmt.

Definition render (i : Instr) : string :=
  match i with
  | ILoad dst src =>
      TAB +:+ "%" +:+ llu dst +:+ " = load i32, i32* %" +:+ llu src
          +:+ ", align 4" +:+ NEWLINE
  | IAlloca r t align =>
      TAB +:+ "%" +:+ llu r +:+ " = alloca " +:+ numberTypeLLVMReprs t
          +:+ ", align " +:+ pretty align +:+ NEWLINE
  | IBinary m dst l r =>
      TAB +:+ "%" +:+ llu dst +:+ " = " +:+ mnemonic_text m +:+ " %" +:+ llu l
          +:+ ", %" +:+ llu r +:+ NEWLINE
  | IStore t v dst =>
      (TAB +:+ "store " +:+ numberTypeLLVMReprs t +:+ " ")
        +:+ format_number (numberTypeFormatStrings t) v
        +:+ (", " +:+ numberTypeLLVMReprs t +:+ "* %" +:+ llu dst +:+ ", align "
               +:+ pretty (numberTypeByteSizes t) +:+ NEWLINE)
  | ICallPrintf print_vr =>
      TAB +:+ "call i32 (i8*, ...) @printf(i8* getelementptr inbounds ([4 x i8], [4 x "
          +:+ "i8]* @print_int_fstring , i32 0, i32 0), i32 %" +:+ llu print_vr
          +:+ ")" +:+ NEWLINE
  end.

Definition render_body (body : list Instr) : string :=
  foldr (fun i s => render i +:+ s) "" body.

End Rendering.

(** The register an instruction line names as its result, if any. *)
Definition result_register (i : Instr) : option type_register :=
  match i with
  | ILoad dst _ => Some dst
  | IAlloca r _ _ => Some r
  | IBinary _ dst _ _ => Some dst
  | IStore _ _ _ => None
  | ICallPrintf _ => None
  end.

Definition is_alloca (i : Instr) : bool :=
  match i with
  | IAlloca _ _ _ => true
  | _ => false
  end.

Definition is_load_from (a : type_register) (i : Instr) : bool :=
  match i with
  | ILoad _ src => bool_decide (src = a)
  | _ => false
  end.

(** ** The global state of one compilation pass (data.h)

    [loadedRegistersHead] and [freeVirtualRegistersHead] are linked lists of
    [LLVMStackEntryNode] of which only the [reg] field is written and read;
    [D_LLVM_FILE] holds the lines written to the function body so far, the
    oldest first. *)

Record State : Type := mkState {
  D_LLVM_LOCAL_VIRTUAL_REGISTER_NUMBER : type_register;
  loadedRegistersHead : list type_register;
  freeVirtualRegistersHead : list type_register;
  D_LLVM_FILE : list Instr
}.

Definition fprintf (i : Instr) (st : State) : State :=
  mkState (D_LLVM_LOCAL_VIRTUAL_REGISTER_NUMBER st) (loadedRegistersHead st)
          (freeVirtualRegistersHead st) (D_LLVM_FILE st ++ [i]).

(** [prepend_loaded]: both branches leave the new node at the head, followed
    by the old list. *)
Definition prepend_loaded (r : type_register) (st : State) : State :=
  mkState (D_LLVM_LOCAL_VIRTUAL_REGISTER_NUMBER st)
          (match loadedRegistersHead st with
           | [] => [r]
           | old => r :: old
           end)
          (freeVirtualRegistersHead st) (D_LLVM_FILE st).

(** [get_next_local_virtual_register]: post-increment of the counter. *)
Definition get_next_local_virtual_register (st : State) : type_register * State :=
  (D_LLVM_LOCAL_VIRTUAL_REGISTER_NUMBER st,
   mkState (wrap (D_LLVM_LOCAL_VIRTUAL_REGISTER_NUMBER st + 1))
           (loadedRegistersHead st) (freeVirtualRegistersHead st) (D_LLVM_FILE st)).

(** [llvm_ensure_registers_loaded], first loop: the [for] over the indices
    [i], ..., [i + k - 1] for one node [current_reg] of the loaded list. The
    third component tells that [return NULL] was reached. *)
Fixpoint scan_registers (k i : nat) (current_reg : type_register) (n_registers : nat)
    (registers : list type_register) (found_registers : list bool) (found : nat)
  : list bool * nat * bool :=
  match k with
  | O => (found_registers, found, false)
  | S k' =>
      let '(found_registers', found') :=
        if negb (found_registers !!! i) && bool_decide (current_reg = registers !!! i)
        then (<[i := true]> found_registers, S found)
        else (found_registers, found) in
      if bool_decide (found' = n_registers)
      then (found_registers', found', true)
      else scan_registers k' (S i) current_reg n_registers registers found_registers' found'
  end.

(** The [while (current)] loop over the loaded list. *)
Fixpoint scan_loaded (current : list type_register) (n_registers : nat)
    (registers : list type_register) (found_registers : list bool) (found : nat)
  : list bool * bool :=
  match current with
  | [] => (found_registers, false)
  | current_reg :: next =>
      let '(found_registers', found', returned) :=
        scan_registers n_registers 0 current_reg n_registers registers found_registers found in
      if returned then (found_registers', true)
      else scan_loaded next n_registers registers found_registers' found'
  end.

(** Second loop: the registers not found are loaded into fresh registers. *)
Fixpoint load_registers (k i : nat) (registers : list type_register)
    (found_registers : list bool) (loaded_registers : list type_register) (st : State)
  : list type_register * State :=
  match k with
  | O => (loaded_registers, st)
  | S k' =>
      let loaded_registers1 := <[i := registers !!! i]> loaded_registers in
      if negb (found_registers !!! i) then
        let '(fresh, st1) := get_next_local_virtual_register st in
        let loaded_registers2 := <[i := fresh]> loaded_registers1 in
        let st2 := fprintf (ILoad (loaded_registers2 !!! i) (registers !!! i)) st1 in
        let st3 := prepend_loaded (loaded_registers2 !!! i) st2 in
        load_registers k' (S i) registers found_registers loaded_registers2 st3
      else
        load_registers k' (S i) registers found_registers loaded_registers1 st
  end.

(** [llvm_ensure_registers_loaded(n_registers, registers)] with
    [n_registers] the length of [registers]. The array [found_registers] is
    declared without an initialiser: its contents at entry are the parameter
    [found_registers]. [None] is the [NULL] result. The array obtained from
    [malloc] is written at every index before it is returned. *)
Definition llvm_ensure_registers_loaded (found_registers : list bool)
    (registers : list type_register) (st : State)
  : option (list type_register) * State :=
  let n_registers := length registers in
  let '(found_registers', returned) :=
    scan_loaded (loadedRegistersHead st) n_registers registers found_registers 0 in
  if returned then (None, st)
  else
    let '(loaded_registers, st') :=
      load_registers n_registers 0 registers found_registers'
                     (replicate n_registers 0) st in
    (Some loaded_registers, st').

(** [llvm_stack_allocation]: one [alloca] line per node, in list order. *)
Fixpoint llvm_stack_allocation (stack_entries : list LLVMStackEntryNode) (st : State)
  : State :=
  match stack_entries with
  | [] => st
  | current :: next =>
      llvm_stack_allocation next
        (fprintf (IAlloca (reg current) (type current) (align_bytes current)) st)
  end.

(** The four emitters [llvm_add], [llvm_subtract], [llvm_multiply] and
    [llvm_divide] differ in the mnemonic only: the line names the register
    returned by [get_next_local_virtual_register], and the result is the
    counter minus one, computed in [type_register]. *)
Definition emit_binary (m : Mnemonic) (left_virtual_register right_virtual_register : LLVMValue)
    (st : State) : type_register * State :=
  let '(fresh, st1) := get_next_local_virtual_register st in
  let st2 := fprintf (IBinary m fresh (virtual_register_index left_virtual_register)
                              (virtual_register_index right_virtual_register)) st1 in
  (wrap (D_LLVM_LOCAL_VIRTUAL_REGISTER_NUMBER st2 + REGISTER_MODULUS - 1), st2).

Definition llvm_add := emit_binary ADD_NSW.
Definition llvm_subtract := emit_binary SUB_NSW.
Definition llvm_multiply := emit_binary MUL_NSW.
Definition llvm_divide := emit_binary UDIV.

(** [llvm_binary_arithmetic]: [fatal] does not return, so that
    [prepend_loaded] is reached by the four arithmetic operators only. *)
Definition llvm_binary_arithmetic (operation : TokenType)
    (left_virtual_register right_virtual_register : LLVMValue) (st : State)
  : Result State LLVMValue :=
  let continue (r : type_register * State) :=
    let '(out_register, st1) := r in
    Ok (LLVMVALUE_VIRTUAL_REGISTER out_register) (prepend_loaded out_register st1) in
  match operation with
  | T_PLUS => continue (llvm_add left_virtual_register right_virtual_register st)
  | T_MINUS => continue (llvm_subtract left_virtual_register right_virtual_register st)
  | T_STAR => continue (llvm_multiply left_virtual_register right_virtual_register st)
  | T_SLASH => continue (llvm_divide left_virtual_register right_virtual_register st)
  | T_EXPONENT => fatal RC_COMPILER_ERROR st
  | _ => fatal RC_COMPILER_ERROR st
  end.

(** Modelled from the spec: [pop_stack_entry_linked_list] is defined in
    translate/translate.c, of which this development has no source. The
    specification of [emit_store_constant] says that the target register is
    obtained by "reusing one from the free-register stack if available,
    otherwise minting a new one". *)
Definition pop_stack_entry_linked_list (st : State) : type_register * State :=
  match freeVirtualRegistersHead st with
  | r :: next =>
      (r, mkState (D_LLVM_LOCAL_VIRTUAL_REGISTER_NUMBER st) (loadedRegistersHead st)
                  next (D_LLVM_FILE st))
  | [] => get_next_local_virtual_register st
  end.

(** [llvm_store_constant]: the three [fprintf] calls write one line. *)
Definition llvm_store_constant (value : Number) (st : State) : LLVMValue * State :=
  let '(out_register_number, st1) := pop_stack_entry_linked_list st in
  let st2 := fprintf (IStore (number_type value) (int_value value) out_register_number) st1 in
  (LLVMVALUE_VIRTUAL_REGISTER_POINTER out_register_number, st2).

(** [llvm_print_int]: the register obtained from the counter is dropped. *)
Definition llvm_print_int (print_vr : type_register) (st : State) : State :=
  let '(_, st1) := get_next_local_virtual_register st in
  fprintf (ICallPrintf print_vr) st1.

(** ** Sequences of calls

    The operations of this file that a translation pass calls after the
    stack allocation, and the run of a list of them from a state; a fatal
    error ends the run. *)

Inductive Op : Type :=
  | OpEnsureLoaded (found_registers : list bool) (registers : list type_register)
  | OpBinaryArithmetic (operation : TokenType) (l r : LLVMValue)
  | OpStoreConstant (value : Number)
  | OpPrintInt (print_vr : type_register)
  | OpNextRegister.

Definition run_op (o : Op) (st : State) : Result State unit :=
  match o with
  | OpEnsureLoaded found_registers registers =>
      Ok tt (llvm_ensure_registers_loaded found_registers registers st).2
  | OpBinaryArithmetic operation l r =>
      match llvm_binary_arithmetic operation l r st with
      | Ok _ st' => Ok tt st'
      | Fatal rc st' => Fatal rc st'
      end
  | OpStoreConstant value => Ok tt (llvm_store_constant value st).2
  | OpPrintInt print_vr => Ok tt (llvm_print_int print_vr st)
  | OpNextRegister => Ok tt (get_next_local_virtual_register st).2
  end.

Fixpoint run_ops (ops : list Op) (st : State) : Result State unit :=
  match ops with
  | [] => Ok tt st
  | o :: ops' => bind (run_op o) (fun _ => run_ops ops') st
  end.

(** The automatic array [found_registers] holds [false] at every index. *)
Definition zeroed (found_registers : list bool) (registers : list type_register) : Prop :=
  found_registers = replicate (length registers) false.

(** The array [found_registers] has [n_registers] entries, whatever they
    hold. *)
Definition op_sized (o : Op) : Prop :=
  match o with
  | OpEnsureLoaded found_registers registers => length found_registers = length registers
  | _ => True
  end.

(** The registers requested from [llvm_ensure_registers_loaded] by an
    operation. *)
Definition requested (o : Op) : list type_register :=
  match o with
  | OpEnsureLoaded _ registers => registers
  | _ => []
  end.

(** [n] successive calls of [get_next_local_virtual_register]: the
    identifiers returned, the first call first, and the last state. *)
Fixpoint next_registers (n : nat) (st : State) : list type_register * State :=
  match n with
  | O => ([], st)
  | S n' =>
      let '(r, st1) := get_next_local_virtual_register st in
      let '(rs, st2) := next_registers n' st1 in
      (r :: rs, st2)
  end.

(** ** Descriptions used in the statements

    The second loop of [llvm_ensure_registers_loaded] as a recursion on the
    registers and flags that remain: the list written to the remaining
    indices, and the last state. *)
Fixpoint load_remaining (registers : list type_register) (found_registers : list bool)
    (st : State) : list type_register * State :=
  match registers, found_registers with
  | r :: registers', true :: found_registers' =>
      let '(out, st') := load_remaining registers' found_registers' st in
      (r :: out, st')
  | r :: registers', false :: found_registers' =>
      let '(fresh, st1) := get_next_local_virtual_register st in
      let '(out, st') :=
        load_remaining registers' found_registers'
                       (prepend_loaded fresh (fprintf (ILoad fresh r) st1)) in
      (fresh :: out, st')
  | _, _ => ([], st)
  end.

(** The number of entries [true] of a flag array. *)
Definition count_true (found_registers : list bool) : nat :=
  length (filter (fun b => b = true) found_registers).

(** The registers of a request that are not in the loaded list, in the
    order of the request. *)
Definition missing (loaded registers : list type_register) : list type_register :=
  filter (fun r => r ∉ loaded) registers.

(** The [m] identifiers that the counter yields from the value [c] on. *)
Definition fresh_registers (c : type_register) (m : nat) : list type_register :=
  (fun k => wrap (c + N.of_nat k)) <$> seq 0 m.

(** The list of a request with its missing registers replaced, in order, by
    the registers of [fresh]. *)
Fixpoint resolve (loaded registers fresh : list type_register) : list type_register :=
  match registers with
  | [] => []
  | r :: registers' =>
      if bool_decide (r ∈ loaded) then r :: resolve loaded registers' fresh
      else match fresh with
           | v :: fresh' => v :: resolve loaded registers' fresh'
           | [] => []
           end
  end.

(** The most identifiers that an operation takes from the counter, and
    that a run of operations takes. *)
Definition mint_bound (o : Op) : nat :=
  match o with
  | OpEnsureLoaded _ registers => length registers
  | _ => 1%nat
  end.

Definition mint_budget (ops : list Op) : nat := sum_list (mint_bound <$> ops).

(** The registers that lines name as their results, in the order of the
    lines. *)
Definition results (lines : list Instr) : list type_register :=
  omap result_register lines.

(** From [st] to [st'] the counter went up by at most [n] without passing
    the end of [type_register]; the result registers of the lines written
    and the registers put on the loaded list are identifiers taken from the
    counter on the way, the former in increasing order of the lines, the
    latter with the newest at the head. *)
Definition advances (n : nat) (st st' : State) : Prop :=
  exists (added : list type_register) (lines : list Instr),
    loadedRegistersHead st' = added ++ loadedRegistersHead st /\
    D_LLVM_FILE st' = D_LLVM_FILE st ++ lines /\
    D_LLVM_LOCAL_VIRTUAL_REGISTER_NUMBER st <= D_LLVM_LOCAL_VIRTUAL_REGISTER_NUMBER st' /\
    D_LLVM_LOCAL_VIRTUAL_REGISTER_NUMBER st'
      <= D_LLVM_LOCAL_VIRTUAL_REGISTER_NUMBER st + N.of_nat n /\
    StronglySorted N.lt (results lines) /\
    StronglySorted (flip N.lt) added /\
    Forall (fun r => D_LLVM_LOCAL_VIRTUAL_REGISTER_NUMBER st <= r
                     < D_LLVM_LOCAL_VIRTUAL_REGISTER_NUMBER st') (results lines ++ added).

(** The counter is a value of [type_register]. *)
Definition counter_in_range (st : State) : Prop :=
  D_LLVM_LOCAL_VIRTUAL_REGISTER_NUMBER st < REGISTER_MODULUS.

Definition count_loads_from (a : type_register) (body : list Instr) : nat :=
  length (filter (fun i => is_load_from a i = true) body).

(** How often the register [a] is requested from
    [llvm_ensure_registers_loaded] by the operations of a run. *)
Definition count_requests (a : type_register) (ops : list Op) : nat :=
  length (filter (fun r => r = a) (concat (requested <$> ops))).

(** What a step adds: registers at the head of the loaded list, and lines
    other than allocations at the end of the file. *)
Definition extends (st st' : State) : Prop :=
  exists (added : list type_register) (lines : list Instr),
    loadedRegistersHead st' = added ++ loadedRegistersHead st /\
    D_LLVM_FILE st' = D_LLVM_FILE st ++ lines /\
    Forall (fun line => is_alloca line = false) lines.

End Llvm.

Module Clang.

(** ** The clang probes (utils/clang.c)

    What the operating system answers is an input: the outcome of the
    [fopen] calls, the lines of the generated LLVM file, the bytes that
    [clang -print-target-triple] prints, and the values returned by
    [pclose]. The results of [popen] and [malloc] are used unchecked by the
    code; the embedding covers the runs in which they are not [NULL].
    [pclose] returns [-1] when the child cannot be waited for and its exit
    status otherwise. *)

Record Env : Type := mkEnv {
  generator_fopen : bool;
  generator_clang_status : Z;
  generator_ll_file : option (list string);
  triple_process_out : string;
  triple_clang_status : Z
}.

Inductive LogLevel : Type :=
  | LOG_DEBUG
  | LOG_ERROR.

Record ProbeState : Type := mkProbeState {
  generatorProgramWritten : bool;
  logged : list (LogLevel * string)
}.

(** Modelled from the spec: [purple_log(level, format, ...)] is defined in
    utils/logging.c, of which this development has no source. A reported
    condition "is logged as an error" and the run goes on: the call is
    recorded, the oldest first. *)
Definition purple_log (level : LogLevel) (format : string) (st : ProbeState) : ProbeState :=
  mkProbeState (generatorProgramWritten st) (logged st ++ [(level, format)]).

Definition pclose_report (clang_status : Z) (on_errno on_status : string) (st : ProbeState)
  : ProbeState :=
  if bool_decide (clang_status = (-1)%Z) then purple_log LOG_ERROR on_errno st
  else if bool_decide (clang_status <> 0%Z) then purple_log LOG_ERROR on_status st
  else st.

(** [create_tmp_generator_program]: a failure of clang is logged, and the
    function goes on to set [generatorProgramWritten]. *)
Definition create_tmp_generator_program (env : Env) (st : ProbeState) : Result ProbeState unit :=
  let st1 := purple_log LOG_DEBUG "Creating generator program file" st in
  if negb (generator_fopen env) then fatal RC_FILE_ERROR st1
  else
    let st2 := purple_log LOG_DEBUG "Compiling generator program to LLVM using clang" st1 in
    let st3 := purple_log LOG_DEBUG ("Running clang with " +:+ quoted "%s") st2 in
    let st4 :=
      pclose_report (generator_clang_status env)
        "clang failed with errno %d while compiling generator program"
        "clang exited with return code %d while compiling generator program" st3 in
    Ok tt (mkProbeState true (logged st4)).

Section Regex.

(** The POSIX functions [regcomp] (does the expression compile) and
    [regexec] (the text of a group of the first match, if any). *)
Variable regcomp : string -> bool.
Variable regexec : string -> string -> nat -> option string.

Definition regex_match (regex target_str : string) (len : Z) (group_index : nat)
    (st : ProbeState) : Result ProbeState (option string) :=
  if negb (regcomp regex) then fatal RC_COMPILER_ERROR st
  else Ok (regexec regex target_str group_index) st.

Definition DATALAYOUT_REGEX : string :=
  "target datalayout = " +:+ String (ascii_of_nat 34) "(.*)" +:+ String (ascii_of_nat 34) "".

(** The [while (fgets ...)] loop of [get_target_datalayout]. *)
Fixpoint search_datalayout (lines : list string) (st : ProbeState)
  : Result ProbeState (option string) :=
  match lines with
  | [] => Ok None st
  | line :: rest =>
      bind (regex_match DATALAYOUT_REGEX line 1024 1)
           (fun out st' =>
              match out with
              | Some _ => Ok out st'
              | None => search_datalayout rest st'
              end) st
  end.

Definition get_target_datalayout (env : Env) (st : ProbeState) : Result ProbeState string :=
  bind (fun st0 => if negb (generatorProgramWritten st0)
                   then create_tmp_generator_program env st0
                   else Ok tt st0)
       (fun _ st1 =>
          let st2 := purple_log LOG_DEBUG "Retrieving target datalayout" st1 in
          match generator_ll_file env with
          | None => fatal RC_FILE_ERROR st2
          | Some lines =>
              bind (search_datalayout lines)
                   (fun out st3 =>
                      match out with
                      | None => fatal RC_COMPILER_ERROR st3
                      | Some text => Ok text st3
                      end) st2
          end) st.

End Regex.

(** The last character is dropped when it is a line feed. *)
Fixpoint strip_newline (s : string) : string :=
  match s with
  | EmptyString => EmptyString
  | String c EmptyString => if Ascii.eqb c (ascii_of_nat 10) then EmptyString else s
  | String c rest => String c (strip_newline rest)
  end.

(** [fgets(s, size, stream)] where [stream] is what is left to read: at
    most [size - 1] bytes are stored, up to the first line feed and with
    it; at the end of the file nothing is stored and the result is [NULL],
    here [None]. *)
Fixpoint fgets_bytes (n : nat) (stream : string) : string :=
  match n, stream with
  | S n', String c rest =>
      String c (if Ascii.eqb c (ascii_of_nat 10) then EmptyString else fgets_bytes n' rest)
  | _, _ => EmptyString
  end.

Definition fgets (size : nat) (stream : string) : option string :=
  match stream with
  | EmptyString => None
  | String _ _ => Some (fgets_bytes (size - 1) stream)
  end.

(** The string that [strlen] and [%s] see in a buffer: the bytes before the
    first NUL. *)
Fixpoint c_string (buffer : string) : string :=
  match buffer with
  | EmptyString => EmptyString
  | String c rest =>
      if Ascii.eqb c (ascii_of_nat 0) then EmptyString else String c (c_string rest)
  end.

(** A text without line feed and without NUL. *)
Fixpoint plain_text (s : string) : bool :=
  match s with
  | EmptyString => true
  | String c rest =>
      negb (Ascii.eqb c (ascii_of_nat 10)) && negb (Ascii.eqb c (ascii_of_nat 0))
      && plain_text rest
  end.

(** [get_target_triple]: a failure of clang is fatal. The buffer of 64
    bytes is filled by one call of [fgets], whose result is not looked at.
    When clang has printed nothing the buffer that [strlen] reads was never
    written, and when the string in the buffer is empty the byte before the
    buffer is read: the behaviour is undefined, and the result is [None]. *)
Definition get_target_triple (env : Env) (st : ProbeState)
  : option (Result ProbeState string) :=
  let st1 := purple_log LOG_DEBUG "Retrieving target triple" st in
  let process_out := fgets 64 (triple_process_out env) in
  if bool_decide (triple_clang_status env = (-1)%Z) then Some (fatal RC_ERROR st1)
  else if bool_decide (triple_clang_status env <> 0%Z) then Some (fatal RC_ERROR st1)
  else
    match process_out with
    | None => None
    | Some buffer =>
        match c_string buffer with
        | EmptyString => None
        | String _ _ => Some (Ok (strip_newline (c_string buffer)) st1)
        end
    end.

(** A regular-expression engine for the one expression the file uses, on
    lines without a double quote after the closing one of the match: the
    text between the opening double quote after [target datalayout = ] at
    the start of the line and the last double quote. *)
Definition datalayout_prefix : string :=
  "target datalayout = " +:+ String (ascii_of_nat 34) "".

Fixpoint drop_prefix (p s : string) : option string :=
  match p, s with
  | EmptyString, _ => Some s
  | String a p', String b s' => if Ascii.eqb a b then drop_prefix p' s' else None
  | String _ _, EmptyString => None
  end.

Fixpoint up_to_last_quote (s : string) : option string :=
  match s with
  | EmptyString => None
  | String c rest =>
      match up_to_last_quote rest with
      | Some t => Some (String c t)
      | None => if Ascii.eqb c (ascii_of_nat 34) then Some EmptyString else None
      end
  end.

Definition line_regexec (regex target_str : string) (group_index : nat) : option string :=
  match drop_prefix datalayout_prefix target_str with
  | Some rest => up_to_last_quote rest
  | None => None
  end.

(** [get_temp_dir]: the three variables asked from [getenv], [None] for a
    variable that is not set. The result is the string literal, or a buffer
    from [malloc]: the buffer is asked for with [strlen(tmpdir + 2)] bytes
    ([None] when [tmpdir + 2] points behind the terminator) and is filled by
    the two [strcat] calls with the text given here. For the empty string
    the character before the string is read: there is no result. *)
Record Environ : Type := mkEnviron {
  TEMP : option string;
  TMP : option string;
  TMPDIR : option string
}.

Inductive TempDir : Type :=
  | Literal_tmp
  | Formatted (allocated : option Z) (formatted : string).

Definition chosen_tmpdir (e : Environ) : option string :=
  match TEMP e with
  | Some tmpdir => Some tmpdir
  | None =>
      match TMP e with
      | Some tmpdir => Some tmpdir
      | None => TMPDIR e
      end
  end.

Fixpoint last_char (s : string) : option ascii :=
  match s with
  | EmptyString => None
  | String c EmptyString => Some c
  | String _ rest => last_char rest
  end.

Definition strlen_plus_2 (s : string) : option Z :=
  match s with
  | String _ (String _ rest) => Some (Z.of_nat (String.length rest))
  | _ => None
  end.

Definition get_temp_dir (e : Environ) : option TempDir :=
  match chosen_tmpdir e with
  | None => Some Literal_tmp
  | Some tmpdir =>
      match last_char tmpdir with
      | None => None
      | Some c =>
          if negb (c =? "/")%char
          then Some (Formatted (strlen_plus_2 tmpdir) (tmpdir +:+ "/"))
          else Some Literal_tmp
      end
  end.

(** The text that [get_temp_dir] returns. *)
Definition temp_dir_text (d : TempDir) : string :=
  match d with
  | Literal_tmp => "/tmp/"
  | Formatted _ formatted => formatted
  end.

End Clang.

Module Preamble.

(** ** The preamble of the module (llvm.c)

    [llvm_preamble] writes to [D_LLVM_FILE] before the function body; the
    state pairs the text written so far with the state of the probes. The
    result is [None] when [get_target_triple] has no defined behaviour. *)

Record State : Type := mkState {
  module_text : string;
  probes : Clang.ProbeState
}.

Definition fprintf (text : string) (st : State) : State :=
  mkState (module_text st +:+ text) (probes st).

(** A probe run in the state of the preamble. *)
Definition probe {A : Type} (m : Clang.ProbeState -> Result Clang.ProbeState A)
  : State -> Result State A :=
  fun st => match m (probes st) with
            | Ok a p => Ok a (mkState (module_text st) p)
            | Fatal rc p => Fatal rc (mkState (module_text st) p)
            end.

Definition QUOTE : string := String (ascii_of_nat 34) "".

Section Text.

Variable NEWLINE : string.
Variable regcomp : string -> bool.
Variable regexec : string -> string -> nat -> option string.

Definition module_id_line (D_INPUT_FN : string) : string :=
  "; ModuleID = '" +:+ D_INPUT_FN +:+ "'" +:+ NEWLINE.

Definition datalayout_line (target_datalayout : string) : string :=
  "target datalayout = " +:+ QUOTE +:+ target_datalayout +:+ QUOTE +:+ NEWLINE.

Definition triple_line (target_triple : string) : string :=
  "target triple = " +:+ QUOTE +:+ target_triple +:+ QUOTE +:+ NEWLINE +:+ NEWLINE.

Definition entry_lines : string :=
  ("@print_int_fstring = private unnamed_addr constant [4 x i8] c" +:+ QUOTE
     +:+ "%d\0A\00" +:+ QUOTE +:+ ", align 1" +:+ NEWLINE +:+ NEWLINE)
  +:+ ("; Function Attrs: noinline nounwind optnone uwtable" +:+ NEWLINE)
  +:+ ("define dso_local i32 @main() #0 {" +:+ NEWLINE).

Definition llvm_preamble (D_INPUT_FN : string) (env : Clang.Env) (st : State)
  : option (Result State unit) :=
  let st1 := fprintf (module_id_line D_INPUT_FN) st in
  match probe (Clang.get_target_datalayout regcomp regexec env) st1 with
  | Fatal rc st2 => Some (Fatal rc st2)
  | Ok target_datalayout st2 =>
      let st3 := fprintf (datalayout_line target_datalayout) st2 in
      match Clang.get_target_triple env (probes st3) with
      | None => None
      | Some (Fatal rc p) => Some (Fatal rc (mkState (module_text st3) p))
      | Some (Ok target_triple p) =>
          let st5 := fprintf (triple_line target_triple) (mkState (module_text st3) p) in
          Some (Ok tt (fprintf entry_lines st5))
      end
  end.

End Text.

End Preamble.

Module Scan.

(** ** The scanner (scan.c)

    A [char] is an [ascii]. The result of [fgetc] is stored in a [char]:
    at the end of the file this is the byte 255, which the signed [char] of
    the x86-64 host the compiler is built for compares equal to [EOF] again.
    [D_INPUT_FILE] holds the bytes of the input file not read yet,
    [D_PUT_BACK] the character put back ([NUL] for none); [D_LINE_NUMBER] is
    an [int] that is only incremented, here a [Z]. *)

Definition NUL : ascii := "000"%char.
Definition LF : ascii := "010"%char.
Definition EOF_char : ascii := "255"%char.

Record Token : Type := mkToken {
  token_type : TokenType;
  token_value : Z
}.

Record ScanState : Type := mkScanState {
  D_INPUT_FILE : list ascii;
  D_PUT_BACK : ascii;
  D_LINE_NUMBER : Z;
  D_IDENTIFIER_BUFFER : string
}.

(** Modelled from the spec: [syntax_error(fn, line, format, ...)] is defined
    in utils/logging.c, of which this development has no source. Syntax
    errors "are reported with source filename and line number and
    unconditionally abort compilation". The outcome records the line number
    and the format string, with the state at the abort. *)
Inductive Scanned (A : Type) : Type :=
  | Done (a : A) (st : ScanState)
  | Syntax_error (line : Z) (format : string) (st : ScanState).

Arguments Done {A} a st.
Arguments Syntax_error {A} line format st.

Definition syntax_error {A : Type} (format : string) (st : ScanState) : Scanned A :=
  Syntax_error (D_LINE_NUMBER st) format st.

Definition scanned_state {A : Type} (r : Scanned A) : ScanState :=
  match r with
  | Done _ st => st
  | Syntax_error _ _ st => st
  end.

(** [next]: the character put back, if any, else the next byte of the file;
    a line feed read from the file increments the line number. *)
Definition next (st : ScanState) : ascii * ScanState :=
  if negb (D_PUT_BACK st =? NUL)%char then
    (D_PUT_BACK st,
     mkScanState (D_INPUT_FILE st) NUL (D_LINE_NUMBER st) (D_IDENTIFIER_BUFFER st))
  else
    match D_INPUT_FILE st with
    | [] => (EOF_char, st)
    | c :: rest =>
        (c, mkScanState rest (D_PUT_BACK st)
                        (if (c =? LF)%char then D_LINE_NUMBER st + 1 else D_LINE_NUMBER st)%Z
                        (D_IDENTIFIER_BUFFER st))
    end.

Definition put_back_into_stream (c : ascii) (st : ScanState) : ScanState :=
  mkScanState (D_INPUT_FILE st) c (D_LINE_NUMBER st) (D_IDENTIFIER_BUFFER st).

(** What is left to read: the measure of the three loops below. *)
Definition pending (st : ScanState) : nat :=
  (length (D_INPUT_FILE st) + if (D_PUT_BACK st =? NUL)%char then 0 else 1)%nat.

Definition is_space (c : ascii) : bool :=
  (c =? " ")%char || (c =? "009")%char || (c =? LF)%char || (c =? "013")%char
  || (c =? "012")%char.

(** [skip]: [do c = next(); while (c is a blank)]. *)
Equations? skip (st : ScanState) : ascii * ScanState by wf (pending st) lt :=
  skip st with inspect (is_space (next st).1) := {
    | exist _ true _ => skip (next st).2
    | exist _ false _ => next st }.
Proof.
  destruct st as [input pb line buf]. unfold next, pending in *.
  cbn [D_INPUT_FILE D_PUT_BACK] in *. destruct (pb =? NUL)%char eqn:E; cbn [negb] in *.
  - destruct input as [|b rest]; cbn [fst snd D_INPUT_FILE D_PUT_BACK length] in *;
      [done|]. rewrite E. lia.
  - cbn [fst snd D_INPUT_FILE D_PUT_BACK]. rewrite Ascii.eqb_refl. lia.
Qed.

(** [index_of]: [strchr] finds the terminator when asked for [NUL]. *)
Fixpoint strchr_from (s : string) (c : ascii) (i : Z) : Z :=
  match s with
  | EmptyString => if (c =? NUL)%char then i else (-1)%Z
  | String a s' => if (a =? c)%char then i else strchr_from s' c (i + 1)%Z
  end.

Definition index_of (s : string) (c : ascii) : Z := strchr_from s c 0.

(** The arithmetic of [int], written as the two's complement wrap-around
    of 32 bits. *)
Definition wrap_int (x : Z) : Z := ((x + 2 ^ 31) mod 2 ^ 32 - 2 ^ 31)%Z.

Definition digit_index (c : ascii) : Z := index_of "0123456789" c.

(** [scanint]: the [while] loop, with the current character and value. *)
Equations? scanint_loop (c : ascii) (val : Z) (st : ScanState) : Z * ScanState
  by wf (pending st + if (0 <=? digit_index c)%Z then 1 else 0)%nat lt :=
  scanint_loop c val st with inspect (0 <=? digit_index c)%Z := {
    | exist _ true _ =>
        scanint_loop (next st).1 (wrap_int (val * 10 + digit_index c)) (next st).2
    | exist _ false _ => (val, put_back_into_stream c st) }.
Proof.
  rewrite e. destruct st as [input pb line buf]. unfold next, pending.
  cbn [D_INPUT_FILE D_PUT_BACK]. destruct (pb =? NUL)%char eqn:E; cbn [negb].
  - destruct input as [|b rest]; cbn [fst snd D_INPUT_FILE D_PUT_BACK length]; rewrite E.
    + replace (0 <=? digit_index EOF_char)%Z with false by reflexivity. lia.
    + destruct (0 <=? digit_index b)%Z; lia.
  - cbn [fst snd D_INPUT_FILE D_PUT_BACK]. rewrite Ascii.eqb_refl.
    destruct (0 <=? digit_index pb)%Z; lia.
Qed.

Definition scanint (c : ascii) (st : ScanState) : Z * ScanState := scanint_loop c 0 st.

Definition isdigit (c : ascii) : bool := ("0" <=? c)%char && (c <=? "9")%char.

Definition isalpha (c : ascii) : bool :=
  (("a" <=? c)%char && (c <=? "z")%char) || (("A" <=? c)%char && (c <=? "Z")%char).

Definition is_valid_identifier_char (c : ascii) (index : Z) : bool :=
  (negb (index =? 0)%Z && isdigit c) || isalpha c || (c =? "_")%char || (c =? "$")%char.

(** [scan_identifier]: the [while] loop with the current character, the
    index [i] and the characters stored in [buf] so far. The buffer is
    written to the state when the terminator is stored. *)
Equations? scan_identifier_loop (c : ascii) (i : Z) (buf : string) (max_len : Z)
    (st : ScanState) : Scanned Z
  by wf (pending st + if is_valid_identifier_char c i then 1 else 0)%nat lt :=
  scan_identifier_loop c i buf max_len st with inspect (is_valid_identifier_char c i) := {
    | exist _ true _ =>
        if (max_len - 1 <=? i)%Z
        then syntax_error "Identifier name has exceeded maximum length of %d" st
        else scan_identifier_loop (next st).1 (i + 1)%Z (buf +:+ String c "") max_len
                                  (next st).2
    | exist _ false _ =>
        Done i (mkScanState (D_INPUT_FILE st) c (D_LINE_NUMBER st) buf) }.
Proof.
  rewrite e. destruct st as [input pb line old]. unfold next, pending.
  cbn [D_INPUT_FILE D_PUT_BACK]. destruct (pb =? NUL)%char eqn:E; cbn [negb].
  - destruct input as [|b rest]; cbn [fst snd D_INPUT_FILE D_PUT_BACK length]; rewrite E.
    + replace (is_valid_identifier_char EOF_char (i + 1)) with false; [lia|].
      unfold is_valid_identifier_char. by rewrite andb_false_r.
    + destruct (is_valid_identifier_char b (i + 1)); lia.
  - cbn [fst snd D_INPUT_FILE D_PUT_BACK]. rewrite Ascii.eqb_refl.
    destruct (is_valid_identifier_char pb (i + 1)); lia.
Qed.

Definition scan_identifier (c : ascii) (max_len : Z) (st : ScanState) : Scanned Z :=
  scan_identifier_loop c 0 "" max_len st.

Definition scan_check_integer_literal (c : ascii) : bool := isdigit c.

Definition scan_check_keyword_identifier (c : ascii) : bool :=
  is_valid_identifier_char c 0.

Section Keywords.

(** The macro [TTS_PRINT] (the text of the print keyword) and the constant
    [D_MAX_IDENTIFIER_LENGTH] are declared in headers of which this
    development has no source: they are parameters. *)
Variable TTS_PRINT : string.
Variable D_MAX_IDENTIFIER_LENGTH : Z.

(** [parse_keyword]: [None] is the result 0, for a string that is no
    keyword. *)
Definition parse_keyword (keyword_string : string) : option TokenType :=
  match keyword_string with
  | String "p" _ => if String.eqb keyword_string TTS_PRINT then Some T_PRINT else None
  | _ => None
  end.

Definition set_type (ty : TokenType) (t : Token) : Token := mkToken ty (token_value t).

(** [scan]: the boolean result and the token written through [t]. *)
Definition scan (t : Token) (st : ScanState) : Scanned (bool * Token) :=
  let '(c, st1) := skip st in
  if (c =? EOF_char)%char then Done (false, set_type T_EOF t) st1
  else if (c =? "+")%char then Done (true, set_type T_PLUS t) st1
  else if (c =? "-")%char then Done (true, set_type T_MINUS t) st1
  else if (c =? "*")%char then
    let '(c2, st2) := next st1 in
    if (c2 =? "*")%char then Done (true, set_type T_EXPONENT t) st2
    else Done (true, set_type T_STAR t) (put_back_into_stream c2 st2)
  else if (c =? "/")%char then Done (true, set_type T_SLASH t) st1
  else if (c =? ";")%char then Done (true, set_type T_SEMICOLON t) st1
  else if scan_check_integer_literal c then
    let '(value, st2) := scanint c st1 in
    Done (true, mkToken T_INTEGER_LITERAL value) st2
  else if scan_check_keyword_identifier c then
    match scan_identifier c D_MAX_IDENTIFIER_LENGTH st1 with
    | Done _ st2 =>
        match parse_keyword (D_IDENTIFIER_BUFFER st2) with
        | Some temp_type => Done (true, set_type temp_type t) st2
        | None => syntax_error ("Unrecognized identifier " +:+ quoted "%s") st2
        end
    | Syntax_error line format st2 => Syntax_error line format st2
    end
  else syntax_error ("Unrecognized token " +:+ quoted "%c") st1.

End Keywords.

(** The bytes of a text. *)
Definition bytes (s : string) : list ascii := String.list_ascii_of_string s.

(** The number of line feeds among bytes. *)
Definition count_lf (consumed : list ascii) : Z :=
  Z.of_nat (length (filter (fun c => c = LF) consumed)).

(** From [st] to [st']: bytes were taken from the front of the file, and
    the line number went up by the number of line feeds among them. *)
Definition reads (st st' : ScanState) : Prop :=
  exists consumed : list ascii,
    D_INPUT_FILE st = consumed ++ D_INPUT_FILE st' /\
    D_LINE_NUMBER st' = (D_LINE_NUMBER st + count_lf consumed)%Z.

(** The value of a run of decimal digits read after the value [v]. *)
Definition decimal (digits : list ascii) (v : Z) : Z :=
  foldl (fun v c => (v * 10 + digit_index c)%Z) v digits.

Definition INT_MAX : Z := (2 ^ 31 - 1)%Z.

(** A character that goes on an identifier after its first character. *)
Definition identifier_char (c : ascii) : bool := is_valid_identifier_char c 1.

End Scan.

Import Llvm.

(** * The text of the lines *)

Example render_load :
  render (String (ascii_of_nat 9) "") (String (ascii_of_nat 10) "") (fun _ => "i32")
         (ILoad 12 3)
  = String (ascii_of_nat 9) "%12 = load i32, i32* %3, align 4" +:+ String (ascii_of_nat 10) "".
Proof. reflexivity. Qed.

Example render_store :
  render (String (ascii_of_nat 9) "") (String (ascii_of_nat 10) "") (fun _ => "i32")
         (IStore NT_INT32 (-42) 3)
  = String (ascii_of_nat 9) "store i32 -42, i32* %3, align 4" +:+ String (ascii_of_nat 10) "".
Proof. reflexivity. Qed.

Example render_divide :
  render (String (ascii_of_nat 9) "") (String (ascii_of_nat 10) "") (fun _ => "i32")
         (IBinary UDIV 6 4 5)
  = String (ascii_of_nat 9) "%6 = udiv i32 %4, %5" +:+ String (ascii_of_nat 10) "".
Proof. reflexivity. Qed.

(** * Properties of the register counter *)

Section RegisterCounter.

Lemma wrap_small (n : N) : n < REGISTER_MODULUS -> wrap n = n.
Proof. apply N.mod_small. Qed.

Lemma wrap_lt (n : N) : wrap n < REGISTER_MODULUS.
Proof. apply N.mod_upper_bound. done. Qed.

Lemma get_next_returns (st : State) :
  (get_next_local_virtual_register st).1 = D_LLVM_LOCAL_VIRTUAL_REGISTER_NUMBER st.
Proof. done. Qed.

Lemma get_next_counter (st : State) :
  D_LLVM_LOCAL_VIRTUAL_REGISTER_NUMBER (get_next_local_virtual_register st).2
  = wrap (D_LLVM_LOCAL_VIRTUAL_REGISTER_NUMBER st + 1).
Proof. done. Qed.

Lemma get_next_in_range (st : State) :
  counter_in_range (get_next_local_virtual_register st).2.
Proof. apply wrap_lt. Qed.

Lemma next_registers_fst (n : nat) : forall st : State,
  D_LLVM_LOCAL_VIRTUAL_REGISTER_NUMBER st + N.of_nat n <= REGISTER_MODULUS ->
  (next_registers n st).1
  = (fun k => D_LLVM_LOCAL_VIRTUAL_REGISTER_NUMBER st + N.of_nat k) <$> seq 0 n.
Proof.
  induction n as [|n IH]; intros st Hle; [done|].
  cbn [next_registers].
  destruct (get_next_local_virtual_register st) as [r st1] eqn:E1.
  destruct (next_registers n st1) as [rs st2] eqn:E2.
  pose proof (get_next_returns st) as Hr. pose proof (get_next_counter st) as Hc.
  rewrite E1 in Hr, Hc. cbn in Hr, Hc. subst r.
  cbn [fst seq fmap list_fmap]. f_equal; [f_equal; lia|].
  pose proof (IH st1) as IH1. rewrite E2 in IH1. cbn in IH1.
  destruct n as [|n]; [by inversion E2|].
  rewrite Hc, wrap_small in IH1 by lia.
  rewrite IH1 by lia.
  rewrite <- fmap_S_seq, <- list_fmap_compose.
  apply list_fmap_ext. intros _ k _. cbn. lia.
Qed.

Lemma offsets_sorted (c : N) (n : nat) :
  StronglySorted N.lt ((fun k => c + N.of_nat k) <$> seq 0 n).
Proof.
  generalize 0%nat. induction n as [|n IH]; intros i; cbn; constructor; [apply IH|].
  apply Forall_fmap, Forall_forall. intros k Hk%elem_of_seq. cbn. lia.
Qed.

Lemma sorted_lt_NoDup (l : list N) : StronglySorted N.lt l -> NoDup l.
Proof.
  induction 1 as [|x l _ IH Hall]; constructor; [|done].
  intros Hin. rewrite Forall_forall in Hall. specialize (Hall _ Hin). lia.
Qed.

(** C3: a call returns the counter and leaves it incremented (in
    [type_register]); as long as the identifiers stay within the 64 bits
    of the type, those returned by any number of successive calls are
    strictly increasing, and none is returned twice. *)
Theorem next_register_strictly_increasing (st : State) (n : nat)
    (Hspace : D_LLVM_LOCAL_VIRTUAL_REGISTER_NUMBER st + N.of_nat n <= REGISTER_MODULUS) :
  (get_next_local_virtual_register st).1 = D_LLVM_LOCAL_VIRTUAL_REGISTER_NUMBER st /\
  D_LLVM_LOCAL_VIRTUAL_REGISTER_NUMBER (get_next_local_virtual_register st).2
    = wrap (D_LLVM_LOCAL_VIRTUAL_REGISTER_NUMBER st + 1) /\
  length (next_registers n st).1 = n /\
  (forall k : nat, (k < n)%nat ->
     (next_registers n st).1 !! k
     = Some (D_LLVM_LOCAL_VIRTUAL_REGISTER_NUMBER st + N.of_nat k)) /\
  StronglySorted N.lt (next_registers n st).1 /\
  NoDup (next_registers n st).1.
Proof.
  rewrite next_registers_fst by done.
  split_and!; [done|done| | | |].
  - by rewrite length_fmap, length_seq.
  - intros k Hk. by rewrite list_lookup_fmap, lookup_seq_lt.
  - apply offsets_sorted.
  - apply sorted_lt_NoDup, offsets_sorted.
Qed.

Lemma next_register_strictly_increasing_witness :
  (next_registers 3 (mkState 7 [] [] [])).1 = [7; 8; 9] /\
  StronglySorted N.lt (next_registers 3 (mkState 7 [] [] [])).1.
Proof.
  split; [reflexivity|].
  apply (next_register_strictly_increasing (mkState 7 [] [] []) 3).
  vm_compute. discriminate.
Defined.

End RegisterCounter.

(** * The emitters without a loop *)

Section Emitters.

Lemma unsigned_pred_succ (c : N) :
  c < REGISTER_MODULUS -> wrap (wrap (c + 1) + REGISTER_MODULUS - 1) = c.
Proof.
  intros Hc. unfold wrap.
  assert (0 < REGISTER_MODULUS) as Hpos by done.
  destruct (decide (c + 1 = REGISTER_MODULUS)) as [E|E].
  - rewrite E, N.Div0.mod_same.
    replace (0 + REGISTER_MODULUS - 1) with c by lia. by apply N.mod_small.
  - rewrite (N.mod_small (c + 1)) by lia.
    replace (c + 1 + REGISTER_MODULUS - 1) with (c + 1 * REGISTER_MODULUS) by lia.
    rewrite N.Div0.mod_add. by apply N.mod_small.
Qed.

Lemma emit_binary_eq (m : Mnemonic) (l r : LLVMValue) (st : State) :
  counter_in_range st ->
  emit_binary m l r st
  = (D_LLVM_LOCAL_VIRTUAL_REGISTER_NUMBER st,
     mkState (wrap (D_LLVM_LOCAL_VIRTUAL_REGISTER_NUMBER st + 1))
             (loadedRegistersHead st) (freeVirtualRegistersHead st)
             (D_LLVM_FILE st
                ++ [IBinary m (D_LLVM_LOCAL_VIRTUAL_REGISTER_NUMBER st)
                            (virtual_register_index l) (virtual_register_index r)])).
Proof.
  intros Hc. unfold emit_binary, get_next_local_virtual_register, fprintf. cbn.
  by rewrite unsigned_pred_succ.
Qed.

Lemma prepend_loaded_eq (r : type_register) (st : State) :
  prepend_loaded r st
  = mkState (D_LLVM_LOCAL_VIRTUAL_REGISTER_NUMBER st) (r :: loadedRegistersHead st)
            (freeVirtualRegistersHead st) (D_LLVM_FILE st).
Proof. unfold prepend_loaded. by destruct (loadedRegistersHead st). Qed.

(** C4: for each of the four arithmetic operators the call writes one
    line, [%c = <mnemonic> %left, %right] with [c] the register taken from
    the counter and the mnemonic of the operator, returns [c] as a value
    reference and puts [c] at the head of the loaded list. *)
Theorem binary_arithmetic_emits_one (operation : TokenType) (m : Mnemonic)
    (l r : LLVMValue) (st : State)
    (Hrange : counter_in_range st)
    (Hop : (operation, m) ∈ [(T_PLUS, ADD_NSW); (T_MINUS, SUB_NSW);
                             (T_STAR, MUL_NSW); (T_SLASH, UDIV)]) :
  llvm_binary_arithmetic operation l r st
  = Ok (LLVMVALUE_VIRTUAL_REGISTER (D_LLVM_LOCAL_VIRTUAL_REGISTER_NUMBER st))
       (mkState (wrap (D_LLVM_LOCAL_VIRTUAL_REGISTER_NUMBER st + 1))
                (D_LLVM_LOCAL_VIRTUAL_REGISTER_NUMBER st :: loadedRegistersHead st)
                (freeVirtualRegistersHead st)
                (D_LLVM_FILE st
                   ++ [IBinary m (D_LLVM_LOCAL_VIRTUAL_REGISTER_NUMBER st)
                               (virtual_register_index l) (virtual_register_index r)]))
  /\ mnemonic_text ADD_NSW = "add nsw i32" /\ mnemonic_text SUB_NSW = "sub nsw i32"
  /\ mnemonic_text MUL_NSW = "mul nsw i32" /\ mnemonic_text UDIV = "udiv i32".
Proof.
  split; [|done].
  rewrite !elem_of_cons, elem_of_nil in Hop.
  destruct Hop as [E|[E|[E|[E|[]]]]]; inversion E; subst; cbn [llvm_binary_arithmetic];
    unfold llvm_add, llvm_subtract, llvm_multiply, llvm_divide;
    rewrite emit_binary_eq by done; by rewrite prepend_loaded_eq.
Qed.

Lemma binary_arithmetic_emits_one_witness :
  llvm_binary_arithmetic T_SLASH (LLVMVALUE_VIRTUAL_REGISTER 4)
                         (LLVMVALUE_VIRTUAL_REGISTER 5) (mkState 6 [5; 4] [] [])
  = Ok (LLVMVALUE_VIRTUAL_REGISTER 6) (mkState 7 [6; 5; 4] [] [IBinary UDIV 6 4 5]).
Proof.
  apply (binary_arithmetic_emits_one T_SLASH UDIV (LLVMVALUE_VIRTUAL_REGISTER 4)
           (LLVMVALUE_VIRTUAL_REGISTER 5) (mkState 6 [5; 4] [] [])).
  - reflexivity.
  - rewrite !elem_of_cons. by do 3 right; left.
Defined.

(** C5: the exponent operator, and every token that is not one of the
    four arithmetic operators, ends the pass with [RC_COMPILER_ERROR]; the
    state at the abort is the state at the call: nothing is written. *)
Theorem binary_arithmetic_unsupported_is_fatal (l r : LLVMValue) (st : State) :
  llvm_binary_arithmetic T_EXPONENT l r st = Fatal RC_COMPILER_ERROR st /\
  (forall operation : TokenType,
     operation ∉ [T_PLUS; T_MINUS; T_STAR; T_SLASH] ->
     llvm_binary_arithmetic operation l r st = Fatal RC_COMPILER_ERROR st).
Proof.
  split; [done|]. intros operation Hop.
  rewrite !not_elem_of_cons in Hop. destruct Hop as (H1 & H2 & H3 & H4 & _).
  destruct operation; first [reflexivity | congruence].
Qed.

Lemma binary_arithmetic_unsupported_is_fatal_witness :
  llvm_binary_arithmetic T_PRINT (LLVMVALUE_VIRTUAL_REGISTER 4)
                         (LLVMVALUE_VIRTUAL_REGISTER 5) (mkState 6 [5; 4] [] [])
  = Fatal RC_COMPILER_ERROR (mkState 6 [5; 4] [] []).
Proof.
  apply (binary_arithmetic_unsupported_is_fatal (LLVMVALUE_VIRTUAL_REGISTER 4)
           (LLVMVALUE_VIRTUAL_REGISTER 5) (mkState 6 [5; 4] [] [])).
  rewrite !not_elem_of_cons. repeat split; try discriminate. apply not_elem_of_nil.
Defined.

(** C7: the store takes its register from the free-register stack when
    there is one and from the counter otherwise, writes one store line of
    the literal, formatted with the format string of its number type, and
    returns the register tagged as an address. *)
Theorem store_constant_emits_one (value : Number) (st : State) :
  (forall (r : type_register) (next : list type_register),
     freeVirtualRegistersHead st = r :: next ->
     llvm_store_constant value st
     = (LLVMVALUE_VIRTUAL_REGISTER_POINTER r,
        mkState (D_LLVM_LOCAL_VIRTUAL_REGISTER_NUMBER st) (loadedRegistersHead st) next
                (D_LLVM_FILE st ++ [IStore (number_type value) (int_value value) r]))) /\
  (freeVirtualRegistersHead st = [] ->
     llvm_store_constant value st
     = (LLVMVALUE_VIRTUAL_REGISTER_POINTER (D_LLVM_LOCAL_VIRTUAL_REGISTER_NUMBER st),
        mkState (wrap (D_LLVM_LOCAL_VIRTUAL_REGISTER_NUMBER st + 1)) (loadedRegistersHead st) []
                (D_LLVM_FILE st ++ [IStore (number_type value) (int_value value)
                                           (D_LLVM_LOCAL_VIRTUAL_REGISTER_NUMBER st)]))) /\
  value_type (llvm_store_constant value st).1 = LLVMVALUETYPE_VIRTUAL_REGISTER_POINTER /\
  (forall (TAB NEWLINE : string) (reprs : NumberType -> string) (r : type_register),
     render TAB NEWLINE reprs (IStore (number_type value) (int_value value) r)
     = (TAB +:+ "store " +:+ reprs (number_type value) +:+ " ")
         +:+ format_number (numberTypeFormatStrings (number_type value)) (int_value value)
         +:+ (", " +:+ reprs (number_type value) +:+ "* %" +:+ llu r +:+ ", align "
                +:+ pretty (numberTypeByteSizes (number_type value)) +:+ NEWLINE)).
Proof.
  unfold llvm_store_constant, pop_stack_entry_linked_list.
  split_and!.
  - by intros r next ->.
  - intros E. rewrite E. cbn. by rewrite E.
  - by destruct (freeVirtualRegistersHead st).
  - done.
Qed.

Lemma store_constant_emits_one_witness :
  llvm_store_constant (NUMBER_INT32 42) (mkState 6 [] [2; 3] [])
  = (LLVMVALUE_VIRTUAL_REGISTER_POINTER 2, mkState 6 [] [3] [IStore NT_INT32 42 2]) /\
  llvm_store_constant (NUMBER_INT32 42) (mkState 6 [] [] [])
  = (LLVMVALUE_VIRTUAL_REGISTER_POINTER 6, mkState 7 [] [] [IStore NT_INT32 42 6]).
Proof.
  split.
  - apply (store_constant_emits_one (NUMBER_INT32 42) (mkState 6 [] [2; 3] [])).
    reflexivity.
  - apply (store_constant_emits_one (NUMBER_INT32 42) (mkState 6 [] [] [])).
    reflexivity.
Defined.

(** C10: a print takes one identifier from the counter and writes one
    call line, which names no result register; the loaded list and the
    free-register stack are as before. While the counter is below the last
    value of the type the new counter is the old one plus one. *)
Theorem print_int_skips_one_register (print_vr : type_register) (st : State) :
  llvm_print_int print_vr st
  = mkState (wrap (D_LLVM_LOCAL_VIRTUAL_REGISTER_NUMBER st + 1)) (loadedRegistersHead st)
            (freeVirtualRegistersHead st) (D_LLVM_FILE st ++ [ICallPrintf print_vr]) /\
  result_register (ICallPrintf print_vr) = None /\
  (D_LLVM_LOCAL_VIRTUAL_REGISTER_NUMBER st + 1 < REGISTER_MODULUS ->
   D_LLVM_LOCAL_VIRTUAL_REGISTER_NUMBER (llvm_print_int print_vr st)
   = D_LLVM_LOCAL_VIRTUAL_REGISTER_NUMBER st + 1).
Proof.
  split_and!; [done|done|]. intros H. cbn. by apply wrap_small.
Qed.

Lemma print_int_skips_one_register_witness :
  D_LLVM_LOCAL_VIRTUAL_REGISTER_NUMBER (llvm_print_int 6 (mkState 7 [6] [] [])) = 8.
Proof.
  apply (print_int_skips_one_register 6 (mkState 7 [6] [] [])). reflexivity.
Defined.

End Emitters.

(** * The loops of [llvm_ensure_registers_loaded] *)

Section EnsureLoaded.

Implicit Types (registers loaded : list type_register) (found_registers : list bool).

(** The second loop, from index [i] on, writes what [load_remaining]
    computes from the registers and flags from [i] on. *)
Lemma load_registers_remaining (k : nat) :
  forall (i : nat) registers found_registers (out : list type_register) (st : State),
    (i + k)%nat = length registers ->
    length found_registers = length registers ->
    length out = length registers ->
    load_registers k i registers found_registers out st
    = (take i out ++ (load_remaining (drop i registers) (drop i found_registers) st).1,
       (load_remaining (drop i registers) (drop i found_registers) st).2).
Proof.
  induction k as [|k IH]; intros i registers found_registers out st Hik Hf Ho.
  - cbn [load_registers].
    rewrite (drop_ge registers), (take_ge out) by lia. cbn. by rewrite app_nil_r.
  - cbn [load_registers].
    destruct (lookup_lt_is_Some_2 registers i) as [r Hr]; [lia|].
    destruct (lookup_lt_is_Some_2 found_registers i) as [f Hfi]; [lia|].
    rewrite (list_lookup_total_correct _ _ _ Hr), (list_lookup_total_correct _ _ _ Hfi).
    rewrite (drop_S _ _ _ Hr), (drop_S _ _ _ Hfi).
    destruct f; cbn [negb load_remaining].
    + rewrite IH by (rewrite ?length_insert; lia).
      destruct (load_remaining _ _ st) as [out' st'] eqn:E. cbn [fst snd]. f_equal.
      rewrite take_S_r with (x := r) by (apply list_lookup_insert_eq; lia).
      rewrite take_insert_ge by lia. by rewrite <- app_assoc.
    + destruct (get_next_local_virtual_register st) as [fresh st1] eqn:E1.
      rewrite list_lookup_total_insert_eq by (rewrite length_insert; lia).
      rewrite IH by (rewrite ?length_insert; lia).
      destruct (load_remaining _ _ (prepend_loaded _ _)) as [out' st'] eqn:E.
      cbn [fst snd]. f_equal.
      rewrite take_S_r with (x := fresh)
        by (apply list_lookup_insert_eq; rewrite length_insert; lia).
      rewrite !take_insert_ge by lia. by rewrite <- app_assoc.
Qed.

Lemma wrap_add_l (a b : N) : wrap (wrap a + b) = wrap (a + b).
Proof. unfold wrap. by rewrite N.Div0.add_mod_idemp_l. Qed.

Lemma fresh_registers_S (c : type_register) (m : nat) :
  c < REGISTER_MODULUS ->
  fresh_registers c (S m) = c :: fresh_registers (wrap (c + 1)) m.
Proof.
  intros Hc. unfold fresh_registers. cbn [seq fmap list_fmap]. f_equal.
  - rewrite N.add_0_r. by apply wrap_small.
  - rewrite <- fmap_S_seq, <- list_fmap_compose. apply list_fmap_ext.
    intros _ k _. cbn [compose]. rewrite wrap_add_l. f_equal. lia.
Qed.

(** With the flags telling membership in a list [loaded], the second loop
    loads the missing registers, in order, into the next identifiers. *)
Lemma load_remaining_resolve loaded registers : forall st : State,
  counter_in_range st ->
  load_remaining registers ((fun r => bool_decide (r ∈ loaded)) <$> registers) st
  = (resolve loaded registers
       (fresh_registers (D_LLVM_LOCAL_VIRTUAL_REGISTER_NUMBER st)
                        (length (missing loaded registers))),
     mkState (wrap (D_LLVM_LOCAL_VIRTUAL_REGISTER_NUMBER st
                    + N.of_nat (length (missing loaded registers))))
             (reverse (fresh_registers (D_LLVM_LOCAL_VIRTUAL_REGISTER_NUMBER st)
                                       (length (missing loaded registers)))
                ++ loadedRegistersHead st)
             (freeVirtualRegistersHead st)
             (D_LLVM_FILE st
                ++ zip_with ILoad
                     (fresh_registers (D_LLVM_LOCAL_VIRTUAL_REGISTER_NUMBER st)
                                      (length (missing loaded registers)))
                     (missing loaded registers))).
Proof.
  induction registers as [|r registers IH]; intros st Hc.
  - cbn. rewrite N.add_0_r, app_nil_r, wrap_small by done. by destruct st.
  - cbn [fmap list_fmap load_remaining resolve]. unfold missing.
    destruct (decide (r ∈ loaded)) as [Hin|Hin].
    + rewrite bool_decide_eq_true_2 by done.
      rewrite filter_cons_False by (intros H; by apply H).
      fold (missing loaded registers). by rewrite IH.
    + rewrite bool_decide_eq_false_2 by done.
      rewrite filter_cons_True by done. fold (missing loaded registers).
      cbn [length]. rewrite fresh_registers_S by done.
      destruct (get_next_local_virtual_register st) as [fresh st1] eqn:E1.
      pose proof (get_next_returns st) as Hr. rewrite E1 in Hr. cbn in Hr. subst fresh.
      assert (st1 = (get_next_local_virtual_register st).2) as -> by by rewrite E1.
      rewrite IH by (rewrite prepend_loaded_eq; apply wrap_lt).
      rewrite prepend_loaded_eq, reverse_cons.
      cbn [get_next_local_virtual_register fprintf snd zip_with
           D_LLVM_LOCAL_VIRTUAL_REGISTER_NUMBER loadedRegistersHead
           freeVirtualRegistersHead D_LLVM_FILE].
      rewrite wrap_add_l, <- !app_assoc. cbn [app].
      do 2 f_equal. f_equal. lia.
Qed.

Lemma count_true_cons (b : bool) found_registers :
  count_true (b :: found_registers)
  = ((if b then 1 else 0) + count_true found_registers)%nat.
Proof.
  unfold count_true. destruct b.
  - by rewrite filter_cons_True.
  - by rewrite filter_cons_False.
Qed.

Lemma count_true_le found_registers :
  (count_true found_registers <= length found_registers)%nat.
Proof. apply length_filter. Qed.

Lemma count_true_insert found_registers : forall i : nat,
  found_registers !! i = Some false ->
  count_true (<[i := true]> found_registers) = S (count_true found_registers).
Proof.
  induction found_registers as [|b l IH]; intros [|i] H; try done.
  - cbn in H. injection H as ->. cbn [insert list_insert]. by rewrite !count_true_cons.
  - cbn in H. cbn [insert list_insert]. rewrite !count_true_cons.
    change (list_insert i true l) with (<[i := true]> l). rewrite IH by done. lia.
Qed.

Lemma count_true_full found_registers :
  count_true found_registers = length found_registers ->
  forall (j : nat) (b : bool), found_registers !! j = Some b -> b = true.
Proof.
  induction found_registers as [|b l IH]; intros H j b' Hj; [done|].
  rewrite count_true_cons in H. cbn [length] in H.
  pose proof (count_true_le l).
  destruct j as [|j]; cbn in Hj.
  - injection Hj as <-. destruct b; [done|]. lia.
  - apply (IH ltac:(destruct b; lia) j b' Hj).
Qed.

Lemma count_true_Forall found_registers :
  Forall (fun b => b = true) found_registers ->
  count_true found_registers = length found_registers.
Proof.
  induction 1 as [|b l -> _ IH]; [done|]. rewrite count_true_cons. cbn [length]. lia.
Qed.

Lemma count_true_replicate (n : nat) : count_true (replicate n false) = 0%nat.
Proof. induction n; [done|]. cbn [replicate]. by rewrite count_true_cons. Qed.

(** The [for] loop over one node: the counter stays the number of flags
    set, a flag is set only where the node's register is requested, and
    when the loop runs to its end every such flag from [i] on is set. *)
Lemma scan_registers_spec (current_reg : type_register) registers (k : nat) :
  forall (i : nat) found_registers (found : nat),
    (i + k)%nat = length registers ->
    length found_registers = length registers ->
    found = count_true found_registers ->
    let '(found_registers', found', returned) :=
      scan_registers k i current_reg (length registers) registers found_registers found in
    length found_registers' = length registers /\
    found' = count_true found_registers' /\
    (forall j : nat, found_registers' !! j = Some true ->
       found_registers !! j = Some true \/ registers !! j = Some current_reg) /\
    (returned = true -> found' = length registers /\ (0 < k)%nat) /\
    (returned = false ->
       ((0 < k)%nat -> found' <> length registers) /\
       (k = 0%nat -> found' = found) /\
       forall (j : nat) (b : bool) (r : type_register),
         found_registers !! j = Some b -> registers !! j = Some r ->
         found_registers' !! j
         = Some (b || (bool_decide (i <= j)%nat && bool_decide (current_reg = r)))).
Proof.
  induction k as [|k IH]; intros i found_registers found Hik Hlen Hfound.
  - cbn [scan_registers]. split_and!; try done; [by left|].
    intros _. split_and!; [lia|done|]. intros j b r Hb Hr.
    apply lookup_lt_Some in Hr. rewrite bool_decide_eq_false_2 by lia.
    by rewrite orb_false_r.
  - cbn [scan_registers].
    destruct (lookup_lt_is_Some_2 registers i) as [ri Hri]; [lia|].
    destruct (lookup_lt_is_Some_2 found_registers i) as [fi Hfi]; [lia|].
    rewrite (list_lookup_total_correct _ _ _ Hri), (list_lookup_total_correct _ _ _ Hfi).
    set (hit := negb fi && bool_decide (current_reg = ri)).
    set (found_registers1 := if hit then <[i := true]> found_registers else found_registers).
    set (found1 := if hit then S found else found).
    replace (if hit then (<[i := true]> found_registers, S found)
             else (found_registers, found))
      with (found_registers1, found1) by (subst found_registers1 found1; by destruct hit).
    assert (length found_registers1 = length registers) as Hlen1.
    { subst found_registers1. destruct hit; by rewrite ?length_insert. }
    assert (found1 = count_true found_registers1) as Hfound1.
    { subst found_registers1 found1 hit. destruct fi; cbn [negb andb]; [done|].
      case_bool_decide; [|done]. by rewrite count_true_insert, Hfound. }
    assert (forall (j : nat) (b : bool) (r : type_register),
              found_registers !! j = Some b -> registers !! j = Some r ->
              found_registers1 !! j
              = Some (b || (bool_decide (j = i) && bool_decide (current_reg = r)))) as Hstep.
    { intros j b r Hb Hr. subst found_registers1 hit.
      destruct (decide (j = i)) as [->|Hne].
      - rewrite Hfi in Hb. rewrite Hri in Hr. simplify_eq.
        rewrite (bool_decide_eq_true_2 (i = i)) by done. cbn [andb].
        destruct b; cbn [negb andb orb]; [done|].
        case_bool_decide; [|done]. apply list_lookup_insert_eq. lia.
      - rewrite (bool_decide_eq_false_2 (j = i)) by done. cbn [andb].
        rewrite orb_false_r. destruct (negb fi && _); [|done].
        by rewrite list_lookup_insert_ne. }
    assert (forall j : nat, found_registers1 !! j = Some true ->
              found_registers !! j = Some true \/ registers !! j = Some current_reg) as Hsound.
    { intros j Hj.
      destruct (lookup_lt_is_Some_2 found_registers j) as [b Hb].
      { rewrite <- Hlen, <- Hlen1 in *. by apply lookup_lt_Some in Hj. }
      destruct (lookup_lt_is_Some_2 registers j) as [r Hr].
      { rewrite <- Hlen1. by apply lookup_lt_Some in Hj. }
      rewrite (Hstep j b r Hb Hr) in Hj. injection Hj as Hj.
      apply orb_true_iff in Hj as [->|Hj]; [by left|].
      apply andb_true_iff in Hj as [_ Hj%bool_decide_eq_true]. subst r. by right. }
    case_bool_decide as Hall.
    + split_and!; [done|done|done| |done]. intros _. split; [done|lia].
    + specialize (IH (S i) found_registers1 found1 ltac:(lia) Hlen1 Hfound1).
      destruct (scan_registers k (S i) current_reg (length registers) registers
                  found_registers1 found1) as [[found_registers' found'] returned].
      destruct IH as (Hl & Hf & Hs & Ht & Hn).
      split_and!; [done|done| | |].
      * intros j Hj. destruct (Hs j Hj) as [H1|H1]; [by apply Hsound|by right].
      * intros Hret. destruct (Ht Hret). split; [done|lia].
      * intros Hret. destruct (Hn Hret) as (Hne & Hzero & Hcomp). split_and!; [|done|].
        { intros _. destruct k as [|k]; [by rewrite Hzero|apply Hne; lia]. }
        intros j b r Hb Hr. rewrite (Hcomp j _ r (Hstep j b r Hb Hr) Hr).
        f_equal. rewrite <- orb_assoc. f_equal. rewrite <- andb_orb_distrib_l.
        f_equal. repeat case_bool_decide; first [done | lia].
Qed.

(** The [while] loop: [done] holds the nodes already visited. *)
Lemma scan_loaded_spec registers (current : list type_register) :
  forall (done : list type_register) found_registers (found : nat),
    length found_registers = length registers ->
    found = count_true found_registers ->
    (length registers = 0%nat \/ (found < length registers)%nat) ->
    (forall (j : nat) (r : type_register), registers !! j = Some r ->
       found_registers !! j = Some (bool_decide (r ∈ done))) ->
    let '(found_registers', returned) :=
      scan_loaded current (length registers) registers found_registers found in
    (returned = true ->
       (0 < length registers)%nat /\
       forall r : type_register, r ∈ registers -> r ∈ done ++ current) /\
    (returned = false ->
       length found_registers' = length registers /\
       (length registers = 0%nat \/ (count_true found_registers' < length registers)%nat) /\
       forall (j : nat) (r : type_register), registers !! j = Some r ->
         found_registers' !! j = Some (bool_decide (r ∈ done ++ current))).
Proof.
  induction current as [|current_reg next IH]; intros done found_registers found Hlen Hfound Hlt Hinv.
  - cbn [scan_loaded]. rewrite app_nil_r. split; [done|]. intros _. by subst found.
  - cbn [scan_loaded].
    pose proof (scan_registers_spec current_reg registers (length registers) 0
                  found_registers found eq_refl Hlen Hfound) as Hspec.
    destruct (scan_registers (length registers) 0 current_reg (length registers) registers
                found_registers found) as [[found_registers1 found1] returned].
    destruct Hspec as (Hlen1 & Hfound1 & Hsound & Htrue & Hfalse).
    destruct returned.
    + split; [|done]. intros _. destruct (Htrue eq_refl) as [Hfull Hpos].
      split; [done|]. intros r [j Hj]%list_elem_of_lookup.
      destruct (lookup_lt_is_Some_2 found_registers1 j) as [b Hb].
      { rewrite Hlen1. by apply lookup_lt_Some in Hj. }
      assert (b = true) as ->.
      { apply (count_true_full found_registers1) with (j := j); [lia|done]. }
      rewrite elem_of_app, elem_of_cons.
      destruct (Hsound j Hb) as [H1|H1].
      * rewrite (Hinv j r Hj) in H1. injection H1 as H1%bool_decide_eq_true. by left.
      * rewrite Hj in H1. injection H1 as ->. right. by left.
    + destruct (Hfalse eq_refl) as (Hne & _ & Hcomp).
      specialize (IH (done ++ [current_reg]) found_registers1 found1 Hlen1 Hfound1).
      rewrite <- app_assoc in IH. cbn [app] in IH. apply IH.
      * destruct (decide (length registers = 0%nat)) as [?|Hpos]; [by left|right].
        pose proof (count_true_le found_registers1). specialize (Hne ltac:(lia)). lia.
      * intros j r Hr. rewrite (Hcomp j _ r (Hinv j r Hr) Hr). f_equal.
        rewrite (bool_decide_eq_true_2 (0 <= j)%nat) by lia. cbn [andb].
        rewrite <- bool_decide_or. apply bool_decide_ext.
        rewrite elem_of_app, elem_of_cons, elem_of_nil. intuition congruence.
Qed.

(** The first loop from flags all [false]: [NULL] is returned exactly
    when the request is not empty and all its registers are in the loaded
    list; otherwise the flags tell which registers are in the list. *)
Lemma scan_loaded_zeroed loaded registers :
  let result := scan_loaded loaded (length registers) registers
                            (replicate (length registers) false) 0 in
  (result.2 = true <-> registers <> [] /\ forall r, r ∈ registers -> r ∈ loaded) /\
  (result.2 = false -> result.1 = (fun r => bool_decide (r ∈ loaded)) <$> registers).
Proof.
  pose proof (scan_loaded_spec registers loaded [] (replicate (length registers) false) 0)
    as Hspec.
  rewrite length_replicate, count_true_replicate in Hspec.
  specialize (Hspec eq_refl eq_refl ltac:(lia)).
  assert (forall (j : nat) (r : type_register), registers !! j = Some r ->
            replicate (length registers) false !! j = Some (bool_decide (r ∈ []))) as Hinit.
  { intros j r Hr. rewrite lookup_replicate_2 by (by apply lookup_lt_Some in Hr).
    by rewrite bool_decide_eq_false_2 by apply not_elem_of_nil. }
  specialize (Hspec Hinit). cbn zeta.
  destruct (scan_loaded loaded (length registers) registers
              (replicate (length registers) false) 0) as [found_registers' returned].
  cbn [fst snd app] in *.
  destruct Hspec as [Htrue Hfalse].
  destruct returned.
  - split; [|done]. split; [|done]. intros _. destruct (Htrue eq_refl) as [Hpos Hall].
    split; [|done]. intros ->. cbn in Hpos. lia.
  - destruct (Hfalse eq_refl) as (Hlen & Hlt & Hflags). split.
    + split; [done|]. intros [Hne Hall]. exfalso.
      destruct Hlt as [Hz|Hlt]; [by apply Hne, nil_length_inv|].
      assert (count_true found_registers' = length found_registers'); [|lia].
      clear Hlt. apply count_true_Forall, Forall_forall.
      intros b [j Hj]%list_elem_of_lookup.
      destruct (lookup_lt_is_Some_2 registers j) as [r Hr].
      { rewrite <- Hlen. by apply lookup_lt_Some in Hj. }
      rewrite (Hflags j r Hr) in Hj. injection Hj as <-.
      apply bool_decide_eq_true_2, Hall. by apply list_elem_of_lookup_2 with j.
    + intros _. apply list_eq. intros j. rewrite list_lookup_fmap.
      destruct (registers !! j) as [r|] eqn:Hr; cbn.
      * by apply Hflags.
      * apply lookup_ge_None. rewrite Hlen. by apply lookup_ge_None.
Qed.

(** The whole function on an array of flags that holds [false]. *)
Lemma ensure_loaded_eq found_registers registers (st : State) :
  zeroed found_registers registers ->
  counter_in_range st ->
  llvm_ensure_registers_loaded found_registers registers st
  = if bool_decide (registers <> []
                    /\ Forall (fun r => r ∈ loadedRegistersHead st) registers)
    then (None, st)
    else
      let fresh := fresh_registers (D_LLVM_LOCAL_VIRTUAL_REGISTER_NUMBER st)
                     (length (missing (loadedRegistersHead st) registers)) in
      (Some (resolve (loadedRegistersHead st) registers fresh),
       mkState (wrap (D_LLVM_LOCAL_VIRTUAL_REGISTER_NUMBER st
                      + N.of_nat (length (missing (loadedRegistersHead st) registers))))
               (reverse fresh ++ loadedRegistersHead st)
               (freeVirtualRegistersHead st)
               (D_LLVM_FILE st
                  ++ zip_with ILoad fresh (missing (loadedRegistersHead st) registers))).
Proof.
  intros -> Hc. unfold llvm_ensure_registers_loaded.
  pose proof (scan_loaded_zeroed (loadedRegistersHead st) registers) as [Hret Hflags].
  destruct (scan_loaded _ _ _ _ _) as [found_registers' returned].
  cbn [fst snd] in *. destruct returned.
  - rewrite bool_decide_eq_true_2; [done|].
    destruct Hret as [[Hne Hall] _]; [done|]. split; [done|]. by apply Forall_forall.
  - rewrite bool_decide_eq_false_2.
    2: { intros [Hne Hall]. rewrite Forall_forall in Hall.
         destruct Hret as [_ Hret]. by specialize (Hret (conj Hne Hall)). }
    rewrite (Hflags eq_refl).
    rewrite load_registers_remaining by (rewrite ?length_fmap, ?length_replicate; lia).
    rewrite !drop_0, take_0. cbn [app].
    by rewrite load_remaining_resolve.
Qed.

Lemma length_fresh_registers (c : type_register) (m : nat) :
  length (fresh_registers c m) = m.
Proof. unfold fresh_registers. by rewrite length_fmap, length_seq. Qed.

Lemma missing_cons_in loaded registers (r : type_register) :
  r ∈ loaded -> missing loaded (r :: registers) = missing loaded registers.
Proof. intros H. unfold missing. rewrite filter_cons_False; [done|]. intros H'. by apply H'. Qed.

Lemma missing_cons_out loaded registers (r : type_register) :
  r ∉ loaded -> missing loaded (r :: registers) = r :: missing loaded registers.
Proof. intros H. unfold missing. by rewrite filter_cons_True. Qed.

Lemma length_resolve loaded registers : forall fresh : list type_register,
  (length (missing loaded registers) <= length fresh)%nat ->
  length (resolve loaded registers fresh) = length registers.
Proof.
  induction registers as [|r registers IH]; intros fresh Hlen; [done|].
  cbn [resolve]. case_bool_decide as Hin.
  - rewrite missing_cons_in in Hlen by done. cbn [length]. by rewrite IH.
  - rewrite missing_cons_out in Hlen by done. cbn [length] in Hlen.
    destruct fresh as [|v fresh]; cbn [length] in *; [lia|]. rewrite IH; [done|lia].
Qed.

(** Position by position: a register of the loaded list stays, a missing
    one is replaced by the fresh register that stands at its rank among
    the missing ones. *)
Lemma resolve_lookup loaded registers :
  forall (fresh : list type_register) (i : nat) (r : type_register),
    (length (missing loaded registers) <= length fresh)%nat ->
    registers !! i = Some r ->
    (r ∈ loaded -> resolve loaded registers fresh !! i = Some r) /\
    (r ∉ loaded ->
       exists (k : nat) (v : type_register),
         fresh !! k = Some v /\ missing loaded registers !! k = Some r /\
         resolve loaded registers fresh !! i = Some v).
Proof.
  induction registers as [|r0 registers IH]; intros fresh i r Hlen Hr; [done|].
  cbn [resolve]. case_bool_decide as Hin.
  - rewrite missing_cons_in in * by done.
    destruct i as [|i]; cbn in Hr.
    + injection Hr as <-. split; [done|]. intros Hout. by destruct Hout.
    + by apply IH.
  - rewrite missing_cons_out in * by done. cbn [length] in Hlen.
    destruct fresh as [|v fresh]; cbn [length] in *; [lia|].
    destruct i as [|i]; cbn in Hr.
    + injection Hr as <-. split; [done|]. intros _. by exists 0%nat, v.
    + destruct (IH fresh i r ltac:(lia) Hr) as [H1 H2]. split; [done|].
      intros Hout. destruct (H2 Hout) as (k & w & Hk & Hm & Hres). by exists (S k), w.
Qed.

(** C1 (amended): on flags that hold [false], the call returns [NULL]
    and changes nothing when the request is not empty and every register
    of it is in the loaded list. Otherwise it returns a list of the length
    of the request in which, position by position, a register of the
    loaded list stands for itself, with no load line, and any other
    register is replaced by the next identifier of the counter, with one
    load line from the register into that identifier, which is put on the
    loaded list. *)
Theorem ensure_loaded_resolves found_registers registers (st : State)
    (Hzero : zeroed found_registers registers) (Hrange : counter_in_range st) :
  let loaded := loadedRegistersHead st in
  let miss := missing loaded registers in
  let fresh := fresh_registers (D_LLVM_LOCAL_VIRTUAL_REGISTER_NUMBER st) (length miss) in
  let lines := zip_with ILoad fresh miss in
  (registers <> [] /\ Forall (fun r => r ∈ loaded) registers ->
     llvm_ensure_registers_loaded found_registers registers st = (None, st)) /\
  (registers = [] \/ ~ Forall (fun r => r ∈ loaded) registers ->
     exists out : list type_register,
       llvm_ensure_registers_loaded found_registers registers st
       = (Some out,
          mkState (wrap (D_LLVM_LOCAL_VIRTUAL_REGISTER_NUMBER st + N.of_nat (length miss)))
                  (reverse fresh ++ loaded) (freeVirtualRegistersHead st)
                  (D_LLVM_FILE st ++ lines)) /\
       length out = length registers /\
       length lines = length miss /\
       (forall line, line ∈ lines ->
          exists v r, line = ILoad v r /\ r ∈ registers /\ r ∉ loaded) /\
       forall (i : nat) (r : type_register), registers !! i = Some r ->
         (r ∈ loaded -> out !! i = Some r) /\
         (r ∉ loaded ->
            exists v : type_register,
              out !! i = Some v /\ ILoad v r ∈ lines /\ v ∈ reverse fresh ++ loaded)).
Proof.
  intros loaded miss fresh lines.
  rewrite (ensure_loaded_eq _ _ _ Hzero Hrange). fold loaded miss fresh lines.
  assert (length fresh = length miss) as Hfresh by apply length_fresh_registers.
  split.
  - intros H. by rewrite bool_decide_eq_true_2.
  - intros H. rewrite bool_decide_eq_false_2 by (intros [? ?]; by destruct H).
    exists (resolve loaded registers fresh). split_and!; [done| | | |].
    + apply length_resolve. fold miss. lia.
    + subst lines. rewrite length_zip_with. lia.
    + intros line [k Hk]%list_elem_of_lookup.
      apply lookup_zip_with_Some in Hk as (v & r & -> & _ & Hr).
      exists v, r. apply list_elem_of_lookup_2, list_elem_of_filter in Hr as [? ?]. done.
    + intros i r Hr.
      destruct (resolve_lookup loaded registers fresh i r ltac:(fold miss; lia) Hr) as [H1 H2].
      split; [done|]. intros Hout. destruct (H2 Hout) as (k & v & Hk & Hm & Hres).
      exists v. split_and!; [done| |].
      * apply list_elem_of_lookup. exists k. apply lookup_zip_with_Some. by exists v, r.
      * apply elem_of_app. left. apply elem_of_reverse. by apply list_elem_of_lookup_2 with k.
Qed.

Lemma ensure_loaded_resolves_witness :
  llvm_ensure_registers_loaded [false; false] [3; 5] (mkState 7 [5; 3] [] []) 
  = (None, mkState 7 [5; 3] [] []) /\
  exists out : list type_register,
    llvm_ensure_registers_loaded [false; false; false] [3; 9; 5] (mkState 7 [5; 3] [] [])
    = (Some out, mkState 8 [7; 5; 3] [] [ILoad 7 9]) /\ length out = 3%nat.
Proof.
  split.
  - destruct (ensure_loaded_resolves [false; false] [3; 5]
                (mkState 7 [5; 3] [] []) eq_refl eq_refl) as [H _].
    apply H. split; [discriminate|]. repeat constructor.
  - destruct (ensure_loaded_resolves [false; false; false] [3; 9; 5]
                (mkState 7 [5; 3] [] []) eq_refl eq_refl) as [_ H].
    destruct H as (out & Hout & Hlen & _).
    + right. intros H. apply Forall_cons_1 in H as [_ H].
      apply Forall_cons_1 in H as [H _]. cbn in H.
      rewrite !elem_of_cons, elem_of_nil in H. by destruct H as [?|[?|?]].
    + exists out. split; [exact Hout|exact Hlen].
Defined.

(** C1, as stated, fails: with both registers of the request in the
    loaded list the call returns [NULL], not a list of two registers. *)
Lemma ensure_loaded_all_found_returns_null :
  ~ exists out : list type_register,
      (llvm_ensure_registers_loaded [false; false] [3; 5] (mkState 7 [5; 3] [] [])).1
      = Some out /\ length out = length [3; 5].
Proof. intros (out & H & _). vm_compute in H. discriminate. Qed.

End EnsureLoaded.

(** * Runs of operations: what is written and what is recorded *)

Section Runs.

Implicit Types (st : State) (o : Op) (ops : list Op) (lines : list Instr).

Lemma extends_refl st : extends st st.
Proof. exists [], []. by rewrite app_nil_r. Qed.

Lemma extends_trans st1 st2 st3 : extends st1 st2 -> extends st2 st3 -> extends st1 st3.
Proof.
  intros (a1 & l1 & Ha1 & Hl1 & Hf1) (a2 & l2 & Ha2 & Hl2 & Hf2).
  exists (a2 ++ a1), (l1 ++ l2). rewrite Ha2, Ha1, Hl2, Hl1, <- !app_assoc.
  split_and!; [done|done|]. by apply Forall_app.
Qed.

Lemma extends_get_next st : extends st (get_next_local_virtual_register st).2.
Proof. exists [], []. by rewrite app_nil_r. Qed.

Lemma extends_prepend st (r : type_register) : extends st (prepend_loaded r st).
Proof. exists [r], []. by rewrite prepend_loaded_eq, app_nil_r. Qed.

Lemma extends_fprintf st (line : Instr) :
  is_alloca line = false -> extends st (fprintf line st).
Proof. intros H. exists [], [line]. split_and!; [done|done|]. by constructor. Qed.

(** The second loop, whatever the flags hold. *)
Lemma load_registers_extends (k : nat) :
  forall (i : nat) (registers : list type_register) (found_registers : list bool)
         (out : list type_register) st,
    extends st (load_registers k i registers found_registers out st).2.
Proof.
  induction k as [|k IH]; intros i registers found_registers out st; cbn [load_registers].
  - apply extends_refl.
  - destruct (negb (found_registers !!! i)); [|apply IH].
    destruct (get_next_local_virtual_register st) as [fresh st1] eqn:E1.
    eapply extends_trans; [|apply IH].
    eapply extends_trans; [|apply extends_prepend].
    eapply extends_trans; [|by apply extends_fprintf].
    replace st1 with (get_next_local_virtual_register st).2 by by rewrite E1.
    apply extends_get_next.
Qed.

Lemma ensure_loaded_extends (found_registers : list bool)
    (registers : list type_register) st :
  extends st (llvm_ensure_registers_loaded found_registers registers st).2.
Proof.
  unfold llvm_ensure_registers_loaded.
  destruct (scan_loaded _ _ _ _ _) as [found_registers' returned].
  destruct returned; [apply extends_refl|].
  pose proof (load_registers_extends (length registers) 0 registers found_registers'
                (replicate (length registers) 0) st) as H.
  by destruct (load_registers _ _ _ _ _ _).
Qed.

Lemma binary_arithmetic_extends (operation : TokenType) (l r : LLVMValue) st :
  extends st (final_state (llvm_binary_arithmetic operation l r st)).
Proof.
  assert (forall m, extends st (prepend_loaded (emit_binary m l r st).1
                                               (emit_binary m l r st).2)) as H.
  { intros m. eapply extends_trans; [|apply extends_prepend].
    unfold emit_binary. cbn [get_next_local_virtual_register snd].
    eapply extends_trans; [apply (extends_get_next st)|]. by apply extends_fprintf. }
  destruct operation; cbn [llvm_binary_arithmetic final_state]; try apply extends_refl;
    unfold llvm_add, llvm_subtract, llvm_multiply, llvm_divide.
  - specialize (H ADD_NSW). by destruct (emit_binary ADD_NSW l r st).
  - specialize (H SUB_NSW). by destruct (emit_binary SUB_NSW l r st).
  - specialize (H MUL_NSW). by destruct (emit_binary MUL_NSW l r st).
  - specialize (H UDIV). by destruct (emit_binary UDIV l r st).
Qed.

Lemma store_constant_extends (value : Number) st :
  extends st (llvm_store_constant value st).2.
Proof.
  unfold llvm_store_constant, pop_stack_entry_linked_list.
  destruct (freeVirtualRegistersHead st); cbn; exists []; eexists [_];
    (split_and!; [done|done|by constructor]).
Qed.

Lemma print_int_extends (print_vr : type_register) st :
  extends st (llvm_print_int print_vr st).
Proof. exists [], [ICallPrintf print_vr]. split_and!; [done|done|by constructor]. Qed.

Lemma run_op_extends o st : extends st (final_state (run_op o st)).
Proof.
  destruct o; cbn [run_op final_state].
  - apply ensure_loaded_extends.
  - pose proof (binary_arithmetic_extends operation l r st) as H.
    by destruct (llvm_binary_arithmetic operation l r st).
  - apply store_constant_extends.
  - apply print_int_extends.
  - apply extends_get_next.
Qed.

Lemma run_ops_extends ops : forall st, extends st (final_state (run_ops ops st)).
Proof.
  induction ops as [|o ops IH]; intros st; cbn [run_ops]; [apply extends_refl|].
  unfold bind. pose proof (run_op_extends o st) as H.
  destruct (run_op o st) as [[] st'|rc st']; cbn [final_state] in *; [|done].
  eapply extends_trans; [exact H|apply IH].
Qed.

(** C9: [llvm_ensure_registers_loaded], whatever its flags hold, and
    [llvm_binary_arithmetic], also when it aborts, leave the loaded list
    as it was or put registers at its head; so does every run of
    operations: a register of the list stays in it. *)
Theorem loaded_list_only_grows :
  (forall (found_registers : list bool) (registers : list type_register) st,
     exists added : list type_register,
       loadedRegistersHead (llvm_ensure_registers_loaded found_registers registers st).2
       = added ++ loadedRegistersHead st) /\
  (forall (operation : TokenType) (l r : LLVMValue) st,
     exists added : list type_register,
       loadedRegistersHead (final_state (llvm_binary_arithmetic operation l r st))
       = added ++ loadedRegistersHead st) /\
  (forall ops st,
     exists added : list type_register,
       loadedRegistersHead (final_state (run_ops ops st))
       = added ++ loadedRegistersHead st) /\
  (forall ops st (r : type_register),
     r ∈ loadedRegistersHead st -> r ∈ loadedRegistersHead (final_state (run_ops ops st))).
Proof.
  split_and!.
  - intros found_registers registers st.
    destruct (ensure_loaded_extends found_registers registers st) as (added & _ & H & _).
    by exists added.
  - intros operation l r st.
    destruct (binary_arithmetic_extends operation l r st) as (added & _ & H & _).
    by exists added.
  - intros ops st. destruct (run_ops_extends ops st) as (added & _ & H & _). by exists added.
  - intros ops st r Hr. destruct (run_ops_extends ops st) as (added & _ & H & _).
    rewrite H. apply elem_of_app. by right.
Qed.

Lemma loaded_list_only_grows_witness :
  4 ∈ loadedRegistersHead
        (final_state
           (run_ops [OpEnsureLoaded [false] [0];
                     OpBinaryArithmetic T_PLUS (LLVMVALUE_VIRTUAL_REGISTER 4)
                                        (LLVMVALUE_VIRTUAL_REGISTER 5)]
                    (mkState 5 [4] [] []))).
Proof.
  apply loaded_list_only_grows. cbn. apply elem_of_cons. by left.
Defined.

Lemma stack_allocation_eq (stack_entries : list LLVMStackEntryNode) : forall st,
  llvm_stack_allocation stack_entries st
  = mkState (D_LLVM_LOCAL_VIRTUAL_REGISTER_NUMBER st) (loadedRegistersHead st)
            (freeVirtualRegistersHead st)
            (D_LLVM_FILE st
               ++ ((fun e => IAlloca (reg e) (type e) (align_bytes e)) <$> stack_entries)).
Proof.
  induction stack_entries as [|e stack_entries IH]; intros st; cbn [llvm_stack_allocation].
  - cbn. rewrite app_nil_r. by destruct st.
  - rewrite IH. cbn. by rewrite <- app_assoc.
Qed.

(** C8: the stack allocation writes one allocation line per entry, in the
    order of the list, with the register, type and alignment of the
    entry, and nothing else. Called on the empty function body, its lines
    stay a block at the head of the body: whatever operations run
    afterwards only add lines that are not allocations behind it. *)
Theorem stack_allocation_first (stack_entries : list LLVMStackEntryNode) st ops
    (Hentry : D_LLVM_FILE st = []) :
  let allocations :=
    (fun e => IAlloca (reg e) (type e) (align_bytes e)) <$> stack_entries in
  llvm_stack_allocation stack_entries st
  = mkState (D_LLVM_LOCAL_VIRTUAL_REGISTER_NUMBER st) (loadedRegistersHead st)
            (freeVirtualRegistersHead st) allocations /\
  length allocations = length stack_entries /\
  (forall (TAB NEWLINE : string) (reprs : NumberType -> string) (e : LLVMStackEntryNode),
     render TAB NEWLINE reprs (IAlloca (reg e) (type e) (align_bytes e))
     = TAB +:+ "%" +:+ llu (reg e) +:+ " = alloca " +:+ reprs (type e)
           +:+ ", align " +:+ pretty (align_bytes e) +:+ NEWLINE) /\
  exists rest : list Instr,
    D_LLVM_FILE (final_state (run_ops ops (llvm_stack_allocation stack_entries st)))
    = allocations ++ rest /\
    Forall (fun line => is_alloca line = false) rest.
Proof.
  intros allocations. rewrite stack_allocation_eq, Hentry. cbn [app].
  split_and!; [done|apply length_fmap|done|].
  destruct (run_ops_extends ops
              (mkState (D_LLVM_LOCAL_VIRTUAL_REGISTER_NUMBER st) (loadedRegistersHead st)
                       (freeVirtualRegistersHead st) allocations))
    as (_ & rest & _ & H & Hrest).
  by exists rest.
Qed.

Lemma stack_allocation_first_witness :
  exists rest : list Instr,
    D_LLVM_FILE
      (final_state
         (run_ops [OpStoreConstant (NUMBER_INT32 2); OpStoreConstant (NUMBER_INT32 3);
                   OpEnsureLoaded [false; false] [0; 1]]
                  (llvm_stack_allocation [mkStackEntry 0 NT_INT32 4; mkStackEntry 1 NT_INT32 4]
                                         (mkState 2 [] [0; 1] []))))
    = [IAlloca 0 NT_INT32 4; IAlloca 1 NT_INT32 4] ++ rest /\
    Forall (fun line => is_alloca line = false) rest.
Proof.
  apply (stack_allocation_first [mkStackEntry 0 NT_INT32 4; mkStackEntry 1 NT_INT32 4]
           (mkState 2 [] [0; 1] [])
           [OpStoreConstant (NUMBER_INT32 2); OpStoreConstant (NUMBER_INT32 3);
            OpEnsureLoaded [false; false] [0; 1]]).
  reflexivity.
Defined.

Lemma count_loads_app (a : type_register) lines1 lines2 :
  count_loads_from a (lines1 ++ lines2)
  = (count_loads_from a lines1 + count_loads_from a lines2)%nat.
Proof. unfold count_loads_from. by rewrite filter_app, length_app. Qed.

Lemma count_loads_cons (a : type_register) (line : Instr) lines :
  count_loads_from a (line :: lines)
  = ((if is_load_from a line then 1 else 0) + count_loads_from a lines)%nat.
Proof.
  unfold count_loads_from. destruct (is_load_from a line) eqn:E.
  - by rewrite filter_cons_True.
  - rewrite filter_cons_False; [done|]. by rewrite E.
Qed.

Lemma count_loads_zip (a : type_register) (fresh : list type_register) :
  forall miss : list type_register,
    length fresh = length miss ->
    count_loads_from a (zip_with ILoad fresh miss) = length (filter (fun r => r = a) miss).
Proof.
  induction fresh as [|v fresh IH]; intros [|r miss] Hlen; try done.
  cbn [zip_with]. rewrite count_loads_cons, IH by (cbn in Hlen; lia).
  cbn [is_load_from]. destruct (decide (r = a)) as [->|Hne].
  - by rewrite bool_decide_eq_true_2, filter_cons_True.
  - by rewrite bool_decide_eq_false_2, filter_cons_False.
Qed.

Lemma count_missing (a : type_register) (loaded registers : list type_register) :
  length (filter (fun r => r = a) (missing loaded registers))
  = if bool_decide (a ∈ loaded) then 0%nat
    else length (filter (fun r => r = a) registers).
Proof.
  induction registers as [|r registers IH]; [by case_bool_decide|].
  destruct (decide (r ∈ loaded)) as [Hin|Hout].
  - rewrite missing_cons_in, IH by done. case_bool_decide as Ha; [done|].
    rewrite (filter_cons_False _ r); [done|]. by intros ->.
  - rewrite missing_cons_out by done. destruct (decide (r = a)) as [->|Hne].
    + rewrite !filter_cons_True by done. cbn [length]. rewrite IH.
      by rewrite bool_decide_eq_false_2.
    + rewrite !filter_cons_False by done. apply IH.
Qed.

Lemma insert_true_keeps (found_registers : list bool) (i j : nat) :
  found_registers !! j = Some true -> <[i := true]> found_registers !! j = Some true.
Proof.
  intros Hj. destruct (decide (i = j)) as [->|Hne].
  - apply list_lookup_insert_eq. by apply lookup_lt_Some in Hj.
  - by rewrite list_lookup_insert_ne.
Qed.

(** The first loop, whatever the flags hold at entry: a flag that is set
    stays set, and where the loop does not return, the entries of the
    register of the node are set from [i] on. *)
Lemma scan_registers_keeps (current_reg : type_register) (n : nat)
    (registers : list type_register) (k : nat) :
  forall (i : nat) (found_registers : list bool) (found : nat),
    length (scan_registers k i current_reg n registers found_registers found).1.1
    = length found_registers /\
    (forall j : nat, found_registers !! j = Some true ->
       (scan_registers k i current_reg n registers found_registers found).1.1 !! j
       = Some true) /\
    ((scan_registers k i current_reg n registers found_registers found).2 = false ->
     forall j : nat, (i <= j < i + k)%nat -> (j < length found_registers)%nat ->
       registers !! j = Some current_reg ->
       (scan_registers k i current_reg n registers found_registers found).1.1 !! j
       = Some true).
Proof.
  induction k as [|k IH]; intros i found_registers found; cbn [scan_registers].
  - split_and!; [done|done|]. intros _ j Hj. lia.
  - destruct (negb (found_registers !!! i) && bool_decide (current_reg = registers !!! i))
      eqn:Hcond.
    + destruct (bool_decide (S found = n)).
      * cbn [fst snd]. split_and!; [by rewrite length_insert| |done].
        intros j Hj. by apply insert_true_keeps.
      * destruct (IH (S i) (<[i := true]> found_registers) (S found)) as (Hlen & Hkeep & Hset).
        rewrite length_insert in Hlen, Hset. split_and!; [done| |].
        -- intros j Hj. by apply Hkeep, insert_true_keeps.
        -- intros Hret j Hj Hlt Hreg. destruct (decide (j = i)) as [->|Hne].
           ++ apply Hkeep. by apply list_lookup_insert_eq.
           ++ apply Hset; [done|lia|done|done].
    + destruct (bool_decide (found = n)).
      * cbn [fst snd]. done.
      * destruct (IH (S i) found_registers found) as (Hlen & Hkeep & Hset).
        split_and!; [done|done|].
        intros Hret j Hj Hlt Hreg. destruct (decide (j = i)) as [->|Hne].
        -- apply Hkeep. destruct (lookup_lt_is_Some_2 found_registers i Hlt) as [b Hb].
           rewrite (list_lookup_total_correct _ _ _ Hb),
                   (list_lookup_total_correct _ _ _ Hreg) in Hcond.
           rewrite bool_decide_eq_true_2, andb_true_r in Hcond by done.
           by destruct b.
        -- apply Hset; [done|lia|done|done].
Qed.

Lemma scan_loaded_keeps (registers current : list type_register) :
  forall (found_registers : list bool) (found : nat),
    length (scan_loaded current (length registers) registers found_registers found).1
    = length found_registers /\
    (forall j : nat, found_registers !! j = Some true ->
       (scan_loaded current (length registers) registers found_registers found).1 !! j
       = Some true) /\
    ((scan_loaded current (length registers) registers found_registers found).2 = false ->
     forall (j : nat) (r : type_register),
       r ∈ current -> (j < length found_registers)%nat -> registers !! j = Some r ->
       (scan_loaded current (length registers) registers found_registers found).1 !! j
       = Some true).
Proof.
  induction current as [|current_reg next IH]; intros found_registers found;
    cbn [scan_loaded].
  - split_and!; [done|done|]. intros _ j r Hr. by apply elem_of_nil in Hr.
  - pose proof (scan_registers_keeps current_reg (length registers) registers
                  (length registers) 0 found_registers found) as (Hlen1 & Hkeep1 & Hset1).
    destruct (scan_registers (length registers) 0 current_reg (length registers) registers
                found_registers found) as [[found_registers1 found1] returned].
    cbn [fst snd] in *. destruct returned; [done|].
    destruct (IH found_registers1 found1) as (Hlen & Hkeep & Hset).
    rewrite Hlen1 in Hlen, Hset. split_and!; [done|by auto|].
    intros Hret j r Hr Hlt Hreg. apply elem_of_cons in Hr as [->|Hr].
    + apply Hkeep, Hset1; [done| |done|done]. apply lookup_lt_Some in Hreg. lia.
    + by apply (Hset Hret j r).
Qed.

(** The second loop, whatever the flags hold: at most one load per index,
    and none from a register whose entries are all set. *)
Lemma load_registers_loads (a : type_register) (k : nat) :
  forall (i : nat) (registers : list type_register) (found_registers : list bool)
         (out : list type_register) st,
    (i + k)%nat = length registers ->
    exists lines,
      D_LLVM_FILE (load_registers k i registers found_registers out st).2
      = D_LLVM_FILE st ++ lines /\
      (count_loads_from a lines
       <= length (filter (fun r => r = a) (drop i registers)))%nat /\
      ((forall j : nat, (i <= j)%nat -> registers !! j = Some a ->
          found_registers !! j = Some true) ->
       count_loads_from a lines = 0%nat).
Proof.
  induction k as [|k IH]; intros i registers found_registers out st Hik;
    cbn [load_registers].
  - exists []. rewrite app_nil_r. split_and!; [done|cbn; lia|done].
  - destruct (lookup_lt_is_Some_2 registers i) as [r Hr]; [lia|].
    rewrite (drop_S _ _ _ Hr), (list_lookup_total_correct _ _ _ Hr).
    destruct (found_registers !!! i) eqn:Hflag; cbn [negb].
    + destruct (IH (S i) registers found_registers (<[i := r]> out) st)
        as (lines & Hfile & Hle & Hzero); [lia|].
      exists lines. split_and!; [done| |].
      * etrans; [exact Hle|]. destruct (decide (r = a)).
        -- rewrite filter_cons_True by done. cbn [length]. lia.
        -- by rewrite filter_cons_False.
      * intros Hall. apply Hzero. intros j Hj. apply Hall. lia.
    + destruct (get_next_local_virtual_register st) as [fresh st1] eqn:E1.
      match goal with
      | |- context [load_registers k (S i) registers found_registers ?o ?s] =>
          destruct (IH (S i) registers found_registers o s) as (lines & Hfile & Hle & Hzero);
            [lia|]
      end.
      injection E1 as <- <-.
      eexists (ILoad _ r :: lines). split_and!.
      * rewrite Hfile. cbn [prepend_loaded fprintf D_LLVM_FILE]. by rewrite <- app_assoc.
      * rewrite count_loads_cons. cbn [is_load_from]. destruct (decide (r = a)).
        -- rewrite bool_decide_eq_true_2, filter_cons_True by done. cbn [length]. lia.
        -- by rewrite bool_decide_eq_false_2, filter_cons_False.
      * intros Hall. rewrite count_loads_cons. cbn [is_load_from].
        destruct (decide (r = a)) as [->|Hne].
        -- specialize (Hall i (Nat.le_refl i) Hr).
           rewrite (list_lookup_total_correct _ _ _ Hall) in Hflag. discriminate.
        -- rewrite bool_decide_eq_false_2 by done. apply Hzero.
           intros j Hj. apply Hall. lia.
Qed.

(** One call, whatever the flags hold at entry. *)
Lemma ensure_loaded_loads (a : type_register) (found_registers : list bool)
    (registers : list type_register) st :
  exists lines,
    D_LLVM_FILE (llvm_ensure_registers_loaded found_registers registers st).2
    = D_LLVM_FILE st ++ lines /\
    (count_loads_from a lines <= length (filter (fun r => r = a) registers))%nat /\
    (length found_registers = length registers -> a ∈ loadedRegistersHead st ->
     count_loads_from a lines = 0%nat).
Proof.
  unfold llvm_ensure_registers_loaded.
  pose proof (scan_loaded_keeps registers (loadedRegistersHead st) found_registers 0)
    as (Hlen & _ & Hset).
  destruct (scan_loaded (loadedRegistersHead st) (length registers) registers
              found_registers 0) as [found_registers' returned].
  cbn [fst snd] in *. destruct returned.
  - exists []. rewrite app_nil_r. split_and!; [done|cbn; lia|done].
  - destruct (load_registers_loads a (length registers) 0 registers found_registers'
                (replicate (length registers) 0) st) as (lines & Hfile & Hle & Hzero);
      [done|].
    destruct (load_registers (length registers) 0 registers found_registers'
                (replicate (length registers) 0) st) as [loaded_registers st'].
    cbn [fst snd] in *. exists lines. split_and!; [done|done|].
    intros Hsize Ha. apply Hzero. intros j _ Hj.
    apply (Hset eq_refl j a); [done| |done]. apply lookup_lt_Some in Hj. lia.
Qed.

Lemma count_loads_none (a : type_register) lines :
  Forall (fun line => is_load_from a line = false) lines -> count_loads_from a lines = 0%nat.
Proof.
  induction 1 as [|line lines H _ IH]; [done|]. by rewrite count_loads_cons, H, IH.
Qed.

(** One operation: the lines it adds hold at most one load from [a] per
    request of [a], and none when [a] is in the loaded list. *)
Lemma run_op_loads o st (a : type_register) :
  exists lines,
    D_LLVM_FILE (final_state (run_op o st)) = D_LLVM_FILE st ++ lines /\
    (count_loads_from a lines <= length (filter (fun r => r = a) (requested o)))%nat /\
    (op_sized o -> a ∈ loadedRegistersHead st -> count_loads_from a lines = 0%nat).
Proof.
  assert (forall st' lines,
            D_LLVM_FILE st' = D_LLVM_FILE st ++ lines ->
            Forall (fun line => is_load_from a line = false) lines ->
            exists lines,
              D_LLVM_FILE st' = D_LLVM_FILE st ++ lines /\
              (count_loads_from a lines <= 0)%nat /\
              (True -> a ∈ loadedRegistersHead st -> count_loads_from a lines = 0%nat))
    as Hnone.
  { intros st' lines Hfile Hlines. exists lines.
    rewrite (count_loads_none a lines Hlines). done. }
  destruct o; cbn [run_op requested op_sized final_state filter length].
  - apply ensure_loaded_loads.
  - destruct operation; cbn [llvm_binary_arithmetic final_state];
      first [ apply (Hnone st []); [by rewrite app_nil_r|constructor]
            | eapply (Hnone _ [IBinary _ _ _ _]); [reflexivity|by repeat constructor] ].
  - unfold llvm_store_constant, pop_stack_entry_linked_list.
    destruct (freeVirtualRegistersHead st); cbn [final_state snd];
      (eapply (Hnone _ [IStore _ _ _]); [reflexivity|by repeat constructor]).
  - eapply (Hnone _ [ICallPrintf _]); [reflexivity|by repeat constructor].
  - apply (Hnone _ []); [by rewrite app_nil_r|constructor].
Qed.

Lemma run_ops_loads ops (a : type_register) : forall st,
  exists lines,
    D_LLVM_FILE (final_state (run_ops ops st)) = D_LLVM_FILE st ++ lines /\
    (count_loads_from a lines <= count_requests a ops)%nat /\
    (Forall op_sized ops -> a ∈ loadedRegistersHead st -> count_loads_from a lines = 0%nat).
Proof.
  unfold count_requests.
  induction ops as [|o ops IH]; intros st; cbn [run_ops].
  - exists []. rewrite app_nil_r. split_and!; [done|cbn; lia|done].
  - destruct (run_op_loads o st a) as (lines1 & Hfile1 & Hle1 & Hin1).
    pose proof (run_op_extends o st) as (added & _ & Hloaded & _).
    cbn [fmap list_fmap concat]. rewrite filter_app, length_app.
    unfold bind. destruct (run_op o st) as [[] st1|rc st1]; cbn [final_state] in *.
    + destruct (IH st1) as (lines2 & Hfile2 & Hle2 & Hin2).
      exists (lines1 ++ lines2). rewrite Hfile2, Hfile1, <- app_assoc, count_loads_app.
      split_and!; [done|lia|]. intros [Ho Hops]%Forall_cons_1 Ha.
      rewrite (Hin1 Ho Ha), Hin2; [done|done|].
      rewrite Hloaded. apply elem_of_app. by right.
    + exists lines1. split_and!; [done|lia|].
      intros [Ho Hops]%Forall_cons_1 Ha. by apply Hin1.
Qed.

(** C2 (amended): whatever the array [found_registers] holds at entry, the
    load lines that a run writes for a register are at most as many as the
    requests of that register from [llvm_ensure_registers_loaded], and
    there is none for a register that is in the loaded list (the array
    having [n_registers] entries). They are not at most one: with the array
    all false at entry, a call writes exactly one load for every occurrence,
    in its input, of a register that is not in the list; and the list
    records the register that received the value, not the one loaded from,
    so that a second request of the same register is answered [NULL] only
    when the counter stood at that register, and by a second load
    otherwise. *)
Theorem loads_at_most_requests (a : type_register) :
  (forall ops st,
     exists lines,
       D_LLVM_FILE (final_state (run_ops ops st)) = D_LLVM_FILE st ++ lines /\
       (count_loads_from a lines <= count_requests a ops)%nat /\
       (Forall op_sized ops -> a ∈ loadedRegistersHead st ->
        count_loads_from a lines = 0%nat)) /\
  (forall (registers : list type_register) st,
     counter_in_range st ->
     exists lines,
       D_LLVM_FILE
         (llvm_ensure_registers_loaded (replicate (length registers) false) registers st).2
       = D_LLVM_FILE st ++ lines /\
       count_loads_from a lines
       = if bool_decide (a ∈ loadedRegistersHead st) then 0%nat
         else length (filter (fun r => r = a) registers)) /\
  (forall st,
     counter_in_range st -> a ∉ loadedRegistersHead st ->
     let c := D_LLVM_LOCAL_VIRTUAL_REGISTER_NUMBER st in
     let st1 :=
       mkState (wrap (c + 1)) (c :: loadedRegistersHead st) (freeVirtualRegistersHead st)
               (D_LLVM_FILE st ++ [ILoad c a]) in
     llvm_ensure_registers_loaded [false] [a] st = (Some [c], st1) /\
     llvm_ensure_registers_loaded [false] [a] st1
     = if bool_decide (a = c) then (None, st1)
       else (Some [wrap (c + 1)],
             mkState (wrap (wrap (c + 1) + 1)) (wrap (c + 1) :: c :: loadedRegistersHead st)
                     (freeVirtualRegistersHead st)
                     (D_LLVM_FILE st ++ [ILoad c a; ILoad (wrap (c + 1)) a]))).
Proof.
  assert (forall st, counter_in_range st -> a ∉ loadedRegistersHead st ->
            llvm_ensure_registers_loaded [false] [a] st
            = (Some [D_LLVM_LOCAL_VIRTUAL_REGISTER_NUMBER st],
               mkState (wrap (D_LLVM_LOCAL_VIRTUAL_REGISTER_NUMBER st + 1))
                       (D_LLVM_LOCAL_VIRTUAL_REGISTER_NUMBER st :: loadedRegistersHead st)
                       (freeVirtualRegistersHead st)
                       (D_LLVM_FILE st ++ [ILoad (D_LLVM_LOCAL_VIRTUAL_REGISTER_NUMBER st) a])))
    as Hload.
  { intros st Hrange Ha. rewrite (ensure_loaded_eq [false] [a] st eq_refl Hrange).
    rewrite bool_decide_eq_false_2
      by (intros [_ Hall]; by apply Forall_cons_1 in Hall as [? _]).
    rewrite missing_cons_out by done. unfold missing. rewrite filter_nil.
    cbn [length]. unfold fresh_registers. cbn [seq fmap list_fmap].
    rewrite N.add_0_r, (wrap_small _ Hrange).
    cbn [resolve]. by rewrite bool_decide_eq_false_2 by done. }
  split_and!.
  - intros ops st. apply run_ops_loads.
  - intros registers st Hrange. rewrite (ensure_loaded_eq _ _ _ eq_refl Hrange).
    case_bool_decide as Hall.
    + exists []. rewrite app_nil_r. split; [done|]. destruct Hall as [_ Hall].
      case_bool_decide as Ha; [done|]. symmetry. apply length_zero_iff_nil.
      induction Hall as [|r registers Hr _ IH]; [done|].
      rewrite filter_cons_False; [done|]. by intros ->.
    + eexists. split; [done|].
      rewrite count_loads_zip by apply length_fresh_registers. apply count_missing.
  - intros st Hrange Ha c st1. subst c st1. split; [by apply Hload|].
    case_bool_decide as Hc.
    + rewrite (ensure_loaded_eq [false] [a] _ eq_refl) by apply wrap_lt.
      rewrite bool_decide_eq_true_2; [done|]. split; [done|].
      constructor; [|constructor]. subst a. apply elem_of_cons. by left.
    + rewrite Hload.
      * cbn [D_LLVM_LOCAL_VIRTUAL_REGISTER_NUMBER loadedRegistersHead
             freeVirtualRegistersHead D_LLVM_FILE]. by rewrite <- app_assoc.
      * apply wrap_lt.
      * cbn [loadedRegistersHead]. by apply not_elem_of_cons.
Qed.

Lemma loads_at_most_requests_witness :
  llvm_ensure_registers_loaded [false] [0] (mkState 2 [1] [] [ILoad 1 0])
  = (Some [2], mkState 3 [2; 1] [] [ILoad 1 0; ILoad 2 0]).
Proof.
  destruct (loads_at_most_requests 0) as (_ & _ & H).
  destruct (H (mkState 1 [] [] [])) as [_ H2].
  - reflexivity.
  - apply not_elem_of_nil.
  - exact H2.
Defined.

(** C2, as stated, fails: the address register 0 of a stored constant,
    requested by two calls, is loaded twice. *)
Lemma second_request_loads_again :
  ~ Nat.le
      (count_loads_from 0
         (D_LLVM_FILE
            (final_state
               (run_ops [OpStoreConstant (NUMBER_INT32 2); OpEnsureLoaded [false] [0];
                         OpEnsureLoaded [false] [0]] (mkState 1 [] [0] [])))))
      1%nat.
Proof. vm_compute. lia. Qed.

End Runs.

(** * The clang probes *)

Import Clang.

Section Probes.

Variable regcomp : string -> bool.
Variable regexec : string -> string -> nat -> option string.

Implicit Types (env : Env) (st : ProbeState).

Lemma create_tmp_generator_program_ok env st :
  generator_fopen env = true ->
  exists st' : ProbeState,
    create_tmp_generator_program env st = Ok tt st' /\
    generatorProgramWritten st' = true /\
    (generator_clang_status env <> 0%Z ->
     exists message : string, (LOG_ERROR, message) ∈ logged st').
Proof.
  intros Hopen. unfold create_tmp_generator_program. rewrite Hopen. cbn [negb].
  eexists. split_and!; [done|done|]. intros Hstatus. cbn [logged].
  unfold pclose_report. case_bool_decide.
  - eexists. cbn. rewrite !elem_of_app. right. apply elem_of_cons. by left.
  - rewrite bool_decide_eq_true_2 by done.
    eexists. cbn. rewrite !elem_of_app. right. apply elem_of_cons. by left.
Qed.

Lemma search_datalayout_none (lines : list string) st :
  regcomp DATALAYOUT_REGEX = true ->
  Forall (fun line => regexec DATALAYOUT_REGEX line 1 = None) lines ->
  search_datalayout regcomp regexec lines st = Ok None st.
Proof.
  intros Hcomp. induction 1 as [|line lines Hline _ IH]; [done|].
  cbn [search_datalayout]. unfold bind, regex_match. rewrite Hcomp. cbn [negb].
  by rewrite Hline.
Qed.

Lemma search_datalayout_some (lines : list string) st :
  regcomp DATALAYOUT_REGEX = true ->
  Exists (fun line => regexec DATALAYOUT_REGEX line 1 <> None) lines ->
  exists text : string, search_datalayout regcomp regexec lines st = Ok (Some text) st.
Proof.
  intros Hcomp Hex. induction lines as [|line lines IH]; [by inversion Hex|].
  cbn [search_datalayout]. unfold bind, regex_match. rewrite Hcomp. cbn [negb].
  destruct (regexec DATALAYOUT_REGEX line 1) as [text|] eqn:E; [by exists text|].
  apply IH. by inversion Hex; subst.
Qed.

(** When the expression does not compile, the first line read ends the
    compilation, and an empty file gives no match. *)
Lemma search_datalayout_regcomp (lines : list string) st :
  regcomp DATALAYOUT_REGEX = false ->
  search_datalayout regcomp regexec lines st
  = match lines with
    | [] => Ok None st
    | _ :: _ => Fatal RC_COMPILER_ERROR st
    end.
Proof.
  intros Hcomp. destruct lines as [|line lines]; [done|].
  cbn [search_datalayout]. unfold bind, regex_match. by rewrite Hcomp.
Qed.

(** The three outcomes of [get_target_datalayout], each with the answers
    of the system that lead to it. *)
Lemma get_target_datalayout_outcome env st :
  let result := get_target_datalayout regcomp regexec env st in
  let could_write := generatorProgramWritten st = true \/ generator_fopen env = true in
  ((generatorProgramWritten st = false /\ generator_fopen env = false)
     \/ generator_ll_file env = None) /\
    (exists st' : ProbeState, result = Fatal RC_FILE_ERROR st')
  \/ could_write /\
     (exists lines : list string,
        generator_ll_file env = Some lines /\
        (regcomp DATALAYOUT_REGEX = false
         \/ Forall (fun line => regexec DATALAYOUT_REGEX line 1 = None) lines)) /\
     (exists st' : ProbeState, result = Fatal RC_COMPILER_ERROR st')
  \/ could_write /\
     (exists lines : list string,
        generator_ll_file env = Some lines /\
        regcomp DATALAYOUT_REGEX = true /\
        Exists (fun line => regexec DATALAYOUT_REGEX line 1 <> None) lines) /\
     (exists (text : string) (st' : ProbeState), result = Ok text st').
Proof.
  intros result could_write. subst result could_write.
  unfold get_target_datalayout, bind.
  assert ((generatorProgramWritten st = false /\ generator_fopen env = false) /\
          (exists st1,
             (if negb (generatorProgramWritten st)
              then create_tmp_generator_program env st else Ok tt st)
             = Fatal RC_FILE_ERROR st1)
          \/ (generatorProgramWritten st = true \/ generator_fopen env = true) /\
             (exists st1,
                (if negb (generatorProgramWritten st)
                 then create_tmp_generator_program env st else Ok tt st) = Ok tt st1))
    as [[Hno [st1 ->]]|[Hyes [st1 ->]]].
  { destruct (generatorProgramWritten st) eqn:Hwritten; cbn [negb].
    - right. split; [by left|by exists st].
    - destruct (generator_fopen env) eqn:Hopen.
      + right. split; [by right|].
        destruct (create_tmp_generator_program_ok env st Hopen) as (st' & -> & _).
        by exists st'.
      + left. split; [done|]. unfold create_tmp_generator_program. rewrite Hopen.
        by eexists. }
  { left. split; [by left|by eexists]. }
  destruct (generator_ll_file env) as [lines|]; [|left; split; [by right|by eexists]].
  right. destruct (regcomp DATALAYOUT_REGEX) eqn:Hcomp.
  - destruct (decide (Forall (fun line => regexec DATALAYOUT_REGEX line 1 = None) lines))
      as [Hall|Hsome].
    + left. rewrite search_datalayout_none by done.
      split_and!; [done|exists lines; by auto|by eexists].
    + right. apply not_Forall_Exists in Hsome; [|apply _].
      destruct (search_datalayout_some lines
                  (purple_log LOG_DEBUG "Retrieving target datalayout" st1) Hcomp Hsome)
        as [text ->].
      split_and!; [done|by exists lines|by eexists _, _].
  - left. rewrite search_datalayout_regcomp by done.
    split_and!; [done|exists lines; by auto|]. destruct lines; by eexists.
Qed.

(** C6 (amended): [get_target_triple] aborts with [RC_ERROR] when
    [pclose] returns [-1] or another status than 0, and does not abort on
    status 0. [create_tmp_generator_program] aborts, with [RC_FILE_ERROR],
    only when the generator source cannot be opened for writing; a [pclose]
    of [-1] or a status other than 0 is logged as an error, and the function
    sets [generatorProgramWritten] and returns. [get_target_datalayout]
    aborts with [RC_FILE_ERROR] exactly when the generator program is still
    to be written and its source cannot be opened, or the generated file
    cannot be opened; with [RC_COMPILER_ERROR] exactly when neither is so
    and the expression does not compile or no line of the generated file
    matches it; it aborts with no other code, and returns a datalayout in
    every other case, whatever the status of clang on the generator program
    was. *)
Theorem probe_failures env st :
  (triple_clang_status env <> 0%Z ->
   get_target_triple env st
   = Some (Fatal RC_ERROR (purple_log LOG_DEBUG "Retrieving target triple" st))) /\
  (triple_clang_status env = 0%Z ->
   forall (rc : ReturnCode) (st' : ProbeState),
     get_target_triple env st <> Some (Fatal rc st')) /\
  (generator_fopen env = false ->
   create_tmp_generator_program env st
   = Fatal RC_FILE_ERROR (purple_log LOG_DEBUG "Creating generator program file" st)) /\
  (generator_fopen env = true ->
   exists st' : ProbeState,
     create_tmp_generator_program env st = Ok tt st' /\
     generatorProgramWritten st' = true /\
     (generator_clang_status env <> 0%Z ->
      exists message : string, (LOG_ERROR, message) ∈ logged st')) /\
  ((exists st' : ProbeState,
      get_target_datalayout regcomp regexec env st = Fatal RC_FILE_ERROR st') <->
   (generatorProgramWritten st = false /\ generator_fopen env = false)
   \/ generator_ll_file env = None) /\
  ((exists st' : ProbeState,
      get_target_datalayout regcomp regexec env st = Fatal RC_COMPILER_ERROR st') <->
   (generatorProgramWritten st = true \/ generator_fopen env = true) /\
   exists lines : list string,
     generator_ll_file env = Some lines /\
     (regcomp DATALAYOUT_REGEX = false
      \/ Forall (fun line => regexec DATALAYOUT_REGEX line 1 = None) lines)) /\
  ((exists (text : string) (st' : ProbeState),
      get_target_datalayout regcomp regexec env st = Ok text st') <->
   (generatorProgramWritten st = true \/ generator_fopen env = true) /\
   exists lines : list string,
     generator_ll_file env = Some lines /\
     regcomp DATALAYOUT_REGEX = true /\
     Exists (fun line => regexec DATALAYOUT_REGEX line 1 <> None) lines) /\
  (forall (rc : ReturnCode) (st' : ProbeState),
     get_target_datalayout regcomp regexec env st = Fatal rc st' ->
     rc = RC_FILE_ERROR \/ rc = RC_COMPILER_ERROR).
Proof.
  pose proof (get_target_datalayout_outcome env st) as Hout. cbn zeta in Hout.
  split_and!.
  - intros Hstatus. unfold get_target_triple.
    case_bool_decide; [done|]. by rewrite bool_decide_eq_true_2.
  - intros Hstatus rc st'. unfold get_target_triple. rewrite Hstatus.
    rewrite (bool_decide_eq_false_2 (0%Z = (-1)%Z)) by done.
    rewrite bool_decide_eq_false_2 by (by intros H).
    destruct (fgets 64 (triple_process_out env)) as [buffer|]; [|done].
    by destruct (c_string buffer).
  - intros Hopen. unfold create_tmp_generator_program. by rewrite Hopen.
  - apply create_tmp_generator_program_ok.
  - split.
    + intros [st' Hst'].
      destruct Hout as [[Hcond _]|[(_ & _ & st2 & H2)|(_ & _ & text & st2 & H2)]];
        [done|congruence|congruence].
    + intros Hcond.
      destruct Hout as [[_ Hres]|[(Hyes & (lines & Hfile & _) & _)
                                 |(Hyes & (lines & Hfile & _) & _)]];
        [done|exfalso..];
        (destruct Hcond as [[Hw Ho]|Hnone]; [destruct Hyes; congruence|congruence]).
  - split.
    + intros [st' Hst'].
      destruct Hout as [[_ [st2 H2]]|[(Hyes & Hlines & _)|(_ & _ & text & st2 & H2)]];
        [congruence|done|congruence].
    + intros [Hyes (lines & Hfile & Hlines)].
      destruct Hout as [[Hcond _]|[(_ & _ & Hres)|(_ & (lines' & Hfile' & Hcomp & Hex) & _)]];
        [exfalso|done|exfalso].
      * destruct Hcond as [[Hw Ho]|Hnone]; [destruct Hyes; congruence|congruence].
      * assert (lines' = lines) as -> by congruence.
        destruct Hlines as [Hno|Hall]; [congruence|].
        apply Exists_exists in Hex as (line & Hin & Hne).
        rewrite Forall_forall in Hall. by apply Hne, Hall.
  - split.
    + intros (text & st' & Hst').
      destruct Hout as [[_ [st2 H2]]|[(_ & _ & st2 & H2)|(Hyes & Hlines & _)]];
        [congruence|congruence|done].
    + intros [Hyes (lines & Hfile & Hcomp & Hex)].
      destruct Hout as [[Hcond _]|[(_ & (lines' & Hfile' & Hno) & _)|(_ & _ & Hres)]];
        [exfalso|exfalso|done].
      * destruct Hcond as [[Hw Ho]|Hnone]; [destruct Hyes; congruence|congruence].
      * assert (lines' = lines) as -> by congruence.
        destruct Hno as [Hno|Hall]; [congruence|].
        apply Exists_exists in Hex as (line & Hin & Hne).
        rewrite Forall_forall in Hall. by apply Hne, Hall.
  - intros rc st' Hres.
    destruct Hout as [[_ [st2 H2]]|[(_ & _ & st2 & H2)|(_ & _ & text & st2 & H2)]];
      [left|right|exfalso]; congruence.
Qed.

End Probes.

Lemma probe_failures_witness :
  get_target_triple (mkEnv true 0 None "x86_64-pc-linux-gnu" 1) (mkProbeState false [])
  = Some (Fatal RC_ERROR (mkProbeState false [(LOG_DEBUG, "Retrieving target triple")])).
Proof.
  apply (probe_failures (fun _ => true) line_regexec
           (mkEnv true 0 None "x86_64-pc-linux-gnu" 1) (mkProbeState false [])).
  discriminate.
Defined.

(** C6, as stated, fails: clang exits with a status other than 0 on the
    generator program, the generated file of an earlier run is in the
    temporary directory, and [get_target_datalayout] returns its datalayout. *)
Lemma datalayout_survives_failed_clang :
  generator_clang_status
    (mkEnv true 256
       (Some ["target datalayout = " +:+ String (ascii_of_nat 34) "e-m:e-i64:64"
                +:+ String (ascii_of_nat 34) ""])
       "" 0) <> 0%Z /\
  get_target_datalayout (fun _ => true) line_regexec
    (mkEnv true 256
       (Some ["target datalayout = " +:+ String (ascii_of_nat 34) "e-m:e-i64:64"
                +:+ String (ascii_of_nat 34) ""])
       "" 0)
    (mkProbeState false [])
  = Ok "e-m:e-i64:64"
       (mkProbeState true
          [(LOG_DEBUG, "Creating generator program file");
           (LOG_DEBUG, "Compiling generator program to LLVM using clang");
           (LOG_DEBUG, "Running clang with " +:+ quoted "%s");
           (LOG_ERROR, "clang exited with return code %d while compiling generator program");
           (LOG_DEBUG, "Retrieving target datalayout")]).
Proof. split; [discriminate|reflexivity]. Qed.


(** * The numbering of the registers *)

Section Numbering.

Implicit Types (st : State) (o : Op) (ops : list Op) (lines : list Instr).

Lemma advances_refl st : advances 0 st st.
Proof.
  exists [], []. rewrite !app_nil_r. split_and!; try done; try lia; constructor.
Qed.

Lemma advances_le (n m : nat) st st' : (n <= m)%nat -> advances n st st' -> advances m st st'.
Proof.
  intros Hle (added & lines & H1 & H2 & H3 & H4 & H5 & H6 & H7).
  exists added, lines. split_and!; try done. lia.
Qed.

Lemma advances_trans (n1 n2 : nat) st1 st2 st3 :
  advances n1 st1 st2 -> advances n2 st2 st3 -> advances (n1 + n2) st1 st3.
Proof.
  intros (a1 & l1 & Ha1 & Hl1 & Hlo1 & Hhi1 & Hs1 & Hd1 & Hr1)
         (a2 & l2 & Ha2 & Hl2 & Hlo2 & Hhi2 & Hs2 & Hd2 & Hr2).
  apply Forall_app in Hr1 as [Hr1 Hq1]. apply Forall_app in Hr2 as [Hr2 Hq2].
  rewrite Forall_forall in Hr1, Hq1, Hr2, Hq2.
  exists (a2 ++ a1), (l1 ++ l2).
  rewrite Ha2, Ha1, Hl2, Hl1, <- !app_assoc. unfold results in *. rewrite omap_app.
  split_and!; [done|done|lia|lia| | |].
  - apply StronglySorted_app_2; [|done|done].
    intros x1 x2 Hx1 Hx2. specialize (Hr1 _ Hx1). specialize (Hr2 _ Hx2). lia.
  - apply StronglySorted_app_2; [|done|done].
    intros x1 x2 Hx1 Hx2. specialize (Hq2 _ Hx1). specialize (Hq1 _ Hx2).
    unfold flip. lia.
  - rewrite !Forall_app, !Forall_forall. split_and!; intros x Hx.
    + specialize (Hr1 _ Hx). lia.
    + specialize (Hr2 _ Hx). lia.
    + specialize (Hq2 _ Hx). lia.
    + specialize (Hq1 _ Hx). lia.
Qed.

(** A state that differs in the free-register stack only. *)
Lemma advances_same (n : nat) st st' :
  loadedRegistersHead st' = loadedRegistersHead st ->
  D_LLVM_FILE st' = D_LLVM_FILE st ->
  D_LLVM_LOCAL_VIRTUAL_REGISTER_NUMBER st' = D_LLVM_LOCAL_VIRTUAL_REGISTER_NUMBER st ->
  advances n st st'.
Proof.
  intros H1 H2 H3. exists [], []. rewrite H1, H2, H3, !app_nil_r.
  split_and!; try done; try lia; constructor.
Qed.

(** One identifier is taken; the line written names it or names nothing,
    and it is put on the loaded list or not. *)
Lemma advances_one st st' (line : Instr) (added : list type_register) :
  D_LLVM_LOCAL_VIRTUAL_REGISTER_NUMBER st + 1 < REGISTER_MODULUS ->
  D_LLVM_LOCAL_VIRTUAL_REGISTER_NUMBER st'
    = wrap (D_LLVM_LOCAL_VIRTUAL_REGISTER_NUMBER st + 1) ->
  D_LLVM_FILE st' = D_LLVM_FILE st ++ [line] ->
  loadedRegistersHead st' = added ++ loadedRegistersHead st ->
  result_register line = Some (D_LLVM_LOCAL_VIRTUAL_REGISTER_NUMBER st)
  \/ result_register line = None ->
  added = [D_LLVM_LOCAL_VIRTUAL_REGISTER_NUMBER st] \/ added = [] ->
  advances 1 st st'.
Proof.
  intros Hlt Hc Hf Hl Hline Hadded. rewrite wrap_small in Hc by done.
  exists added, [line]. unfold results. cbn [omap list_omap].
  split_and!; [done|done|lia|lia| | |].
  - destruct Hline as [->| ->]; cbn; repeat constructor.
  - destruct Hadded as [->| ->]; repeat constructor.
  - apply Forall_app. split.
    + destruct Hline as [->| ->]; cbn; repeat constructor; lia.
    + destruct Hadded as [->| ->]; repeat constructor; lia.
Qed.

Lemma load_registers_advances (k : nat) :
  forall (i : nat) (registers : list type_register) (found_registers : list bool)
         (out : list type_register) st,
    (i + k <= length out)%nat ->
    D_LLVM_LOCAL_VIRTUAL_REGISTER_NUMBER st + N.of_nat k < REGISTER_MODULUS ->
    advances k st (load_registers k i registers found_registers out st).2.
Proof.
  induction k as [|k IH]; intros i registers found_registers out st Hlen Hlt;
    cbn [load_registers]; [apply advances_refl|].
  destruct (negb (found_registers !!! i)).
  - destruct (get_next_local_virtual_register st) as [fresh st1] eqn:E1.
    pose proof (get_next_returns st) as Hr. pose proof (get_next_counter st) as Hc.
    rewrite E1 in Hr, Hc. cbn [fst snd] in Hr, Hc. subst fresh.
    rewrite list_lookup_total_insert_eq by (rewrite length_insert; lia).
    assert (loadedRegistersHead st1 = loadedRegistersHead st
            /\ D_LLVM_FILE st1 = D_LLVM_FILE st) as [Hl1 Hf1].
    { replace st1 with (get_next_local_virtual_register st).2 by by rewrite E1. done. }
    change (S k) with (1 + k)%nat. eapply advances_trans; [|apply IH].
    + eapply (advances_one st _ _ [D_LLVM_LOCAL_VIRTUAL_REGISTER_NUMBER st]);
        rewrite ?prepend_loaded_eq; cbn; rewrite ?Hl1, ?Hf1; try done; try lia; by left.
    + rewrite !length_insert. lia.
    + rewrite prepend_loaded_eq. cbn. rewrite Hc, wrap_small by lia. lia.
  - eapply advances_le; [|apply IH]; [lia|rewrite length_insert; lia|lia].
Qed.

Lemma run_op_advances o st :
  D_LLVM_LOCAL_VIRTUAL_REGISTER_NUMBER st + N.of_nat (mint_bound o) < REGISTER_MODULUS ->
  advances (mint_bound o) st (final_state (run_op o st)).
Proof.
  intros Hlt. destruct o; cbn [run_op mint_bound final_state] in *.
  - unfold llvm_ensure_registers_loaded.
    destruct (scan_loaded _ _ _ _ _) as [found_registers' returned].
    destruct returned; [eapply advances_le; [|apply advances_refl]; lia|].
    pose proof (load_registers_advances (length registers) 0 registers found_registers'
                  (replicate (length registers) 0) st) as H.
    rewrite length_replicate in H. specialize (H ltac:(lia) Hlt).
    by destruct (load_registers _ _ _ _ _ _).
  - assert (counter_in_range st) as Hrange by (unfold counter_in_range; lia).
    destruct operation; cbn [llvm_binary_arithmetic final_state];
      try (eapply advances_le; [|apply advances_refl]; lia);
      unfold llvm_add, llvm_subtract, llvm_multiply, llvm_divide;
      rewrite emit_binary_eq, prepend_loaded_eq by done; cbn [final_state];
      (eapply (advances_one st _ _ [D_LLVM_LOCAL_VIRTUAL_REGISTER_NUMBER st]);
       cbn; try done; try lia; by left).
  - unfold llvm_store_constant, pop_stack_entry_linked_list.
    destruct (freeVirtualRegistersHead st) as [|r next]; cbn [final_state snd].
    2: { exists [], [IStore (number_type value) (int_value value) r].
         cbn. split_and!; try done; try lia; constructor. }
    eapply (advances_one st _ _ []); cbn; try done; try lia; by right.
  - eapply (advances_one st _ _ []); cbn; try done; try lia; by right.
  - exists [], []. cbn. rewrite !app_nil_r, wrap_small by lia.
    split_and!; try done; try lia; constructor.
Qed.

Lemma run_ops_advances ops : forall st,
  D_LLVM_LOCAL_VIRTUAL_REGISTER_NUMBER st + N.of_nat (mint_budget ops) < REGISTER_MODULUS ->
  advances (mint_budget ops) st (final_state (run_ops ops st)).
Proof.
  unfold mint_budget.
  induction ops as [|o ops IH]; intros st Hlt; cbn [run_ops]; [apply advances_refl|].
  cbn [fmap list_fmap sum_list sum_list_with] in *.
  change (sum_list_with id (mint_bound <$> ops)) with (sum_list (mint_bound <$> ops)) in *.
  unfold id in *.
  pose proof (run_op_advances o st ltac:(lia)) as H.
  unfold bind. destruct (run_op o st) as [[] st1|rc st1]; cbn [final_state] in *.
  - eapply advances_trans; [exact H|]. apply IH.
    destruct H as (_ & _ & _ & _ & _ & Hhi & _). lia.
  - eapply advances_le; [|exact H]. lia.
Qed.

Lemma sorted_gt_NoDup (l : list N) : StronglySorted (flip N.lt) l -> NoDup l.
Proof.
  induction 1 as [|x l _ IH Hall]; constructor; [|done].
  intros Hin. rewrite Forall_forall in Hall. specialize (Hall _ Hin). unfold flip in Hall. lia.
Qed.

(** X9: as long as the counter does not pass the end of its type, the
    result registers that a run of operations writes are identifiers taken
    from the counter during the run, in strictly increasing order of the
    lines: no register is the result of two lines. *)
Theorem result_registers_increase ops st
    (Hbudget : D_LLVM_LOCAL_VIRTUAL_REGISTER_NUMBER st + N.of_nat (mint_budget ops)
               < REGISTER_MODULUS) :
  exists lines,
    D_LLVM_FILE (final_state (run_ops ops st)) = D_LLVM_FILE st ++ lines /\
    StronglySorted N.lt (results lines) /\
    NoDup (results lines) /\
    Forall (fun r => D_LLVM_LOCAL_VIRTUAL_REGISTER_NUMBER st <= r
                     < D_LLVM_LOCAL_VIRTUAL_REGISTER_NUMBER (final_state (run_ops ops st)))
           (results lines).
Proof.
  destruct (run_ops_advances ops st Hbudget)
    as (added & lines & _ & Hfile & _ & _ & Hsorted & _ & Hall).
  apply Forall_app in Hall as [Hall _].
  exists lines. split_and!; [done|done|by apply sorted_lt_NoDup|done].
Qed.

(** X10: when the registers of the loaded list are distinct and below the
    counter, they stay so in every run that does not pass the end of the
    counter's type: what is put on the list is a fresh identifier each
    time. *)
Theorem loaded_registers_stay_fresh ops st
    (Hbudget : D_LLVM_LOCAL_VIRTUAL_REGISTER_NUMBER st + N.of_nat (mint_budget ops)
               < REGISTER_MODULUS)
    (Hbelow : Forall (fun r => r < D_LLVM_LOCAL_VIRTUAL_REGISTER_NUMBER st)
                     (loadedRegistersHead st))
    (Hdistinct : NoDup (loadedRegistersHead st)) :
  Forall (fun r => r < D_LLVM_LOCAL_VIRTUAL_REGISTER_NUMBER (final_state (run_ops ops st)))
         (loadedRegistersHead (final_state (run_ops ops st))) /\
  NoDup (loadedRegistersHead (final_state (run_ops ops st))).
Proof.
  destruct (run_ops_advances ops st Hbudget)
    as (added & lines & Hloaded & _ & Hlo & _ & _ & Hsorted & Hall).
  apply Forall_app in Hall as [_ Hall]. rewrite Hloaded.
  rewrite Forall_forall in Hall, Hbelow. split.
  - apply Forall_app. rewrite !Forall_forall. split; intros r Hr.
    + specialize (Hall _ Hr). lia.
    + specialize (Hbelow _ Hr). lia.
  - apply NoDup_app. split_and!; [by apply sorted_gt_NoDup| |done].
    intros r Hr Hr'. specialize (Hall _ Hr). specialize (Hbelow _ Hr'). lia.
Qed.

Lemma resolve_elem (loaded registers : list type_register) :
  forall fresh : list type_register,
    Forall (fun r => r ∈ reverse fresh ++ loaded) (resolve loaded registers fresh).
Proof.
  induction registers as [|r registers IH]; intros fresh; cbn [resolve]; [constructor|].
  case_bool_decide as Hin.
  - constructor; [|apply IH]. apply elem_of_app. by right.
  - destruct fresh as [|v fresh]; [constructor|]. constructor.
    + rewrite reverse_cons, elem_of_app, elem_of_app, list_elem_of_singleton. left. by right.
    + eapply Forall_impl; [apply IH|]. intros x. cbn beta.
      rewrite reverse_cons, !elem_of_app. tauto.
Qed.


(** With its one flag set at entry, the first loop leaves the flag and
    does not return. *)
Lemma scan_loaded_flag_set (x : type_register) (current : list type_register) :
  scan_loaded current 1 [x] [true] 0 = ([true], false).
Proof. induction current as [|current_reg next IH]; [done|]. cbn. apply IH. Qed.

(** X12: the result of an arithmetic instruction is never loaded from.
    Asked for the register that [llvm_binary_arithmetic] returned,
    [llvm_ensure_registers_loaded] writes nothing and leaves the state as it
    is, whatever its flag holds at entry: it returns [NULL] when the flag is
    false, and the register itself when the flag is set; and no later run
    writes a load from that register. *)
Theorem computed_value_is_loaded (operation : TokenType) (l r v : LLVMValue) st st'
    (Hvalue : llvm_binary_arithmetic operation l r st = Ok v st') :
  (forall found : bool,
     llvm_ensure_registers_loaded [found] [virtual_register_index v] st'
     = (if found then Some [virtual_register_index v] else None, st')) /\
  (forall ops,
     Forall op_sized ops ->
     exists lines,
       D_LLVM_FILE (final_state (run_ops ops st')) = D_LLVM_FILE st' ++ lines /\
       count_loads_from (virtual_register_index v) lines = 0%nat).
Proof.
  assert (exists old, loadedRegistersHead st' = virtual_register_index v :: old)
    as [old Hloaded].
  { destruct operation; cbn [llvm_binary_arithmetic] in Hvalue; try discriminate Hvalue;
      unfold llvm_add, llvm_subtract, llvm_multiply, llvm_divide, emit_binary in Hvalue;
      cbn [get_next_local_virtual_register] in Hvalue;
      rewrite prepend_loaded_eq in Hvalue; injection Hvalue as <- <-; by eexists. }
  split.
  - intros found. unfold llvm_ensure_registers_loaded. rewrite Hloaded. destruct found.
    + by rewrite scan_loaded_flag_set.
    + cbn. by rewrite bool_decide_eq_true_2.
  - intros ops Hsized.
    destruct (run_ops_loads ops (virtual_register_index v) st') as (lines & Hfile & _ & H).
    exists lines. split; [done|]. apply H; [done|].
    rewrite Hloaded. apply elem_of_cons. by left.
Qed.

End Numbering.

Lemma result_registers_increase_witness :
  exists lines,
    D_LLVM_FILE
      (final_state
         (run_ops [OpStoreConstant (NUMBER_INT32 2); OpStoreConstant (NUMBER_INT32 3);
                   OpEnsureLoaded [false; false] [0; 1];
                   OpBinaryArithmetic T_PLUS (LLVMVALUE_VIRTUAL_REGISTER 2)
                                      (LLVMVALUE_VIRTUAL_REGISTER 3);
                   OpPrintInt 4]
                  (mkState 2 [] [0; 1] [])))
    = [] ++ lines /\ NoDup (results lines).
Proof.
  destruct (result_registers_increase
              [OpStoreConstant (NUMBER_INT32 2); OpStoreConstant (NUMBER_INT32 3);
               OpEnsureLoaded [false; false] [0; 1];
               OpBinaryArithmetic T_PLUS (LLVMVALUE_VIRTUAL_REGISTER 2)
                                  (LLVMVALUE_VIRTUAL_REGISTER 3);
               OpPrintInt 4]
              (mkState 2 [] [0; 1] []))
    as (lines & Hfile & _ & Hdistinct & _).
  - reflexivity.
  - exists lines. split; [exact Hfile|exact Hdistinct].
Defined.

Lemma loaded_registers_stay_fresh_witness :
  NoDup (loadedRegistersHead
           (final_state
              (run_ops [OpEnsureLoaded [false; false] [0; 1];
                        OpBinaryArithmetic T_PLUS (LLVMVALUE_VIRTUAL_REGISTER 2)
                                           (LLVMVALUE_VIRTUAL_REGISTER 3)]
                       (mkState 2 [] [] [])))).
Proof.
  apply (loaded_registers_stay_fresh
           [OpEnsureLoaded [false; false] [0; 1];
            OpBinaryArithmetic T_PLUS (LLVMVALUE_VIRTUAL_REGISTER 2)
                               (LLVMVALUE_VIRTUAL_REGISTER 3)]
           (mkState 2 [] [] [])).
  - reflexivity.
  - constructor.
  - constructor.
Defined.


Lemma computed_value_is_loaded_witness :
  llvm_ensure_registers_loaded [true] [6] (mkState 7 [6; 5; 4] [] [IBinary UDIV 6 4 5])
  = (Some [6], mkState 7 [6; 5; 4] [] [IBinary UDIV 6 4 5]).
Proof.
  destruct (computed_value_is_loaded T_SLASH (LLVMVALUE_VIRTUAL_REGISTER 4)
              (LLVMVALUE_VIRTUAL_REGISTER 5) (LLVMVALUE_VIRTUAL_REGISTER 6)
              (mkState 6 [5; 4] [] [])
              (mkState 7 [6; 5; 4] [] [IBinary UDIV 6 4 5])) as [H _].
  - reflexivity.
  - exact (H true).
Defined.

(** * More on the probes, and the preamble *)

Section MoreProbes.

Variable regcomp : string -> bool.
Variable regexec : string -> string -> nat -> option string.

Implicit Types (env : Env) (st : ProbeState).

(** The search leaves the state as it is, and does the same in any state. *)
Lemma search_datalayout_state (lines : list string) st (out : option string) st' :
  search_datalayout regcomp regexec lines st = Ok out st' ->
  st' = st /\ forall st2, search_datalayout regcomp regexec lines st2 = Ok out st2.
Proof.
  revert st. induction lines as [|line lines IH]; intros st; cbn [search_datalayout].
  - intros [= <- <-]. done.
  - unfold bind, regex_match. destruct (negb (regcomp DATALAYOUT_REGEX)); [done|].
    destruct (regexec DATALAYOUT_REGEX line 1) as [text|].
    + intros [= <- <-]. done.
    + apply IH.
Qed.

(** X13: the generator program is compiled once. After a call of
    [get_target_datalayout] that returned, a second call answers the same
    text and only logs that it looks the datalayout up: clang is not run
    again. *)
Theorem datalayout_probe_is_cached env st (target_datalayout : string) st1
    (Hfirst : get_target_datalayout regcomp regexec env st = Ok target_datalayout st1) :
  generatorProgramWritten st1 = true /\
  get_target_datalayout regcomp regexec env st1
  = Ok target_datalayout (purple_log LOG_DEBUG "Retrieving target datalayout" st1).
Proof.
  unfold get_target_datalayout, bind in Hfirst.
  assert (exists st0,
            (if negb (generatorProgramWritten st)
             then create_tmp_generator_program env st else Ok tt st) = Ok tt st0
            /\ generatorProgramWritten st0 = true) as (st0 & Hst0 & Hwritten).
  { destruct (generatorProgramWritten st) eqn:E; cbn [negb] in *; [by exists st|].
    unfold create_tmp_generator_program in *.
    destruct (negb (generator_fopen env)); [done|]. by eexists. }
  rewrite Hst0 in Hfirst.
  destruct (generator_ll_file env) as [lines|] eqn:Hfile; [|done].
  destruct (search_datalayout regcomp regexec lines _) as [out st2|rc st2] eqn:Hsearch;
    [|done].
  destruct out as [text|]; [|done]. injection Hfirst as -> ->.
  apply search_datalayout_state in Hsearch as [-> Hany].
  split; [done|].
  unfold get_target_datalayout, bind. cbn [generatorProgramWritten purple_log].
  rewrite Hwritten. cbn [negb]. rewrite Hfile.
  by rewrite Hany.
Qed.

(** X14: the datalayout is that of the first line of the generated file
    that matches: lines that do not match are passed over, lines behind the
    match are not looked at. *)
Theorem datalayout_first_match env st (before after : list string) (line text : string)
    (Hopen : generator_fopen env = true)
    (Hcomp : regcomp DATALAYOUT_REGEX = true)
    (Hfile : generator_ll_file env = Some (before ++ line :: after))
    (Hbefore : Forall (fun l => regexec DATALAYOUT_REGEX l 1 = None) before)
    (Hline : regexec DATALAYOUT_REGEX line 1 = Some text) :
  exists st' : ProbeState, get_target_datalayout regcomp regexec env st = Ok text st'.
Proof.
  unfold get_target_datalayout, bind at 1.
  assert (exists st1,
            (if negb (generatorProgramWritten st)
             then create_tmp_generator_program env st else Ok tt st) = Ok tt st1)
    as [st1 ->].
  { destruct (generatorProgramWritten st); cbn [negb]; [by exists st|].
    destruct (create_tmp_generator_program_ok env st Hopen) as (st' & -> & _). by exists st'. }
  rewrite Hfile. unfold bind.
  assert (forall st2, search_datalayout regcomp regexec (before ++ line :: after) st2
                      = Ok (Some text) st2) as ->; [|by eexists].
  clear Hfile. induction Hbefore as [|l before Hl _ IH]; intros st2;
    cbn [app search_datalayout]; unfold bind, regex_match; rewrite Hcomp; cbn [negb].
  - by rewrite Hline.
  - by rewrite Hl.
Qed.

End MoreProbes.

Lemma strip_newline_line (s : string) : strip_newline (s +:+ String "010" "") = s.
Proof.
  induction s as [|c s IH]; [done|].
  change (strip_newline (String c (s +:+ String "010" "")) = String c s).
  cbn [strip_newline]. rewrite IH.
  by destruct s.
Qed.

Lemma plain_text_cons (c : ascii) (s : string) :
  plain_text (String c s) = true ->
  Ascii.eqb c (ascii_of_nat 10) = false /\ Ascii.eqb c (ascii_of_nat 0) = false /\
  plain_text s = true.
Proof.
  cbn [plain_text]. intros [[H1 H2]%andb_true_iff H3]%andb_true_iff.
  by rewrite negb_true_iff in H1, H2.
Qed.

Lemma fgets_bytes_line (line rest : string) : forall n : nat,
  plain_text line = true -> (String.length line < n)%nat ->
  fgets_bytes n (line +:+ String "010" rest) = line +:+ String "010" "".
Proof.
  induction line as [|c line IH]; intros n Hplain Hlen.
  - destruct n; [cbn in Hlen; lia|]. done.
  - destruct n; [cbn in Hlen; lia|].
    apply plain_text_cons in Hplain as (Hlf & _ & Hplain).
    change (fgets_bytes (S n) (String c (line +:+ String "010" rest))
            = String c (line +:+ String "010" "")).
    cbn [fgets_bytes]. rewrite Hlf, IH; [done|done|]. cbn [String.length] in Hlen. lia.
Qed.

Lemma fgets_bytes_cut (head rest : string) :
  plain_text head = true -> fgets_bytes (String.length head) (head +:+ rest) = head.
Proof.
  induction head as [|c head IH]; intros Hplain; [done|].
  apply plain_text_cons in Hplain as (Hlf & _ & Hplain).
  change (fgets_bytes (S (String.length head)) (String c (head +:+ rest)) = String c head).
  cbn [fgets_bytes]. by rewrite Hlf, IH.
Qed.

Lemma fgets_bytes_all (s : string) : forall n : nat,
  plain_text s = true -> (String.length s <= n)%nat -> fgets_bytes n s = s.
Proof.
  induction s as [|c s IH]; intros n Hplain Hlen; [by destruct n|].
  destruct n; [cbn in Hlen; lia|].
  apply plain_text_cons in Hplain as (Hlf & _ & Hplain).
  cbn [fgets_bytes]. rewrite Hlf, IH; [done|done|]. cbn [String.length] in Hlen. lia.
Qed.

Lemma c_string_plain (s : string) : plain_text s = true -> c_string s = s.
Proof.
  induction s as [|c s IH]; intros Hplain; [done|].
  apply plain_text_cons in Hplain as (_ & Hnul & Hplain).
  cbn [c_string]. by rewrite Hnul, IH.
Qed.

Lemma c_string_line (line : string) :
  plain_text line = true -> c_string (line +:+ String "010" "") = line +:+ String "010" "".
Proof.
  induction line as [|c line IH]; intros Hplain; [done|].
  apply plain_text_cons in Hplain as (_ & Hnul & Hplain).
  change (c_string (String c (line +:+ String "010" "")) = String c (line +:+ String "010" "")).
  cbn [c_string]. by rewrite Hnul, IH.
Qed.

Lemma strip_newline_plain (s : string) : plain_text s = true -> strip_newline s = s.
Proof.
  induction s as [|c s IH]; intros Hplain; [done|].
  apply plain_text_cons in Hplain as (Hlf & _ & Hplain).
  cbn [strip_newline]. rewrite IH by done. destruct s; [|done]. by rewrite Hlf.
Qed.

(** X15: when clang exits with status 0, [get_target_triple] returns the
    first line that clang printed, without its line feed, if the line has at
    most 62 characters before the line feed; of a longer first line, or of
    an output without line feed, it returns the first 63 bytes, and a
    shorter output without line feed as it is (the texts being without
    NUL). When clang printed nothing, or a NUL first, the function reads
    memory that it never wrote: there is no defined result. *)
Theorem target_triple_strips_line_feed (env : Env) (st : ProbeState)
    (Hstatus : triple_clang_status env = 0%Z) :
  let st1 := purple_log LOG_DEBUG "Retrieving target triple" st in
  (forall line rest : string,
     triple_process_out env = line +:+ String "010" rest ->
     plain_text line = true -> (String.length line <= 62)%nat ->
     get_target_triple env st = Some (Ok line st1)) /\
  (forall head rest : string,
     triple_process_out env = head +:+ rest ->
     plain_text head = true -> String.length head = 63%nat ->
     get_target_triple env st = Some (Ok head st1)) /\
  (triple_process_out env <> EmptyString ->
   plain_text (triple_process_out env) = true ->
   (String.length (triple_process_out env) <= 63)%nat ->
   get_target_triple env st = Some (Ok (triple_process_out env) st1)) /\
  (triple_process_out env = EmptyString
   \/ (exists rest : string, triple_process_out env = String "000" rest) ->
   get_target_triple env st = None).
Proof.
  intros st1. subst st1. unfold get_target_triple. rewrite Hstatus.
  rewrite (bool_decide_eq_false_2 (0%Z = (-1)%Z)) by done.
  rewrite bool_decide_eq_false_2 by (by intros H).
  split_and!.
  - intros line rest -> Hplain Hlen.
    assert (fgets 64 (line +:+ String "010" rest) = Some (line +:+ String "010" ""))
      as ->.
    { unfold fgets. rewrite <- (fgets_bytes_line line rest 63) by (done || lia).
      by destruct line. }
    rewrite c_string_line, strip_newline_line by done. by destruct line.
  - intros head rest -> Hplain Hlen.
    assert (fgets 64 (head +:+ rest) = Some head) as ->.
    { unfold fgets. rewrite <- (fgets_bytes_cut head rest) at 2 by done. rewrite Hlen.
      by destruct head. }
    rewrite c_string_plain, strip_newline_plain by done. by destruct head.
  - intros Hne Hplain Hlen. destruct (triple_process_out env) as [|c s] eqn:E; [done|].
    unfold fgets. rewrite fgets_bytes_all by (done || cbn [Nat.sub]; lia).
    by rewrite c_string_plain, strip_newline_plain.
  - intros [->|[rest ->]]; done.
Qed.

Lemma target_triple_strips_line_feed_witness :
  get_target_triple (mkEnv true 0 None ("x86_64-pc-linux-gnu" +:+ String "010" "") 0)
                    (mkProbeState false [])
  = Some (Ok "x86_64-pc-linux-gnu"
             (mkProbeState false [(LOG_DEBUG, "Retrieving target triple")])).
Proof.
  destruct (target_triple_strips_line_feed
              (mkEnv true 0 None ("x86_64-pc-linux-gnu" +:+ String "010" "") 0)
              (mkProbeState false []) eq_refl) as [H _].
  apply (H "x86_64-pc-linux-gnu" ""); [reflexivity|reflexivity|].
  cbn [String.length]. lia.
Defined.

Lemma datalayout_probe_is_cached_witness :
  get_target_datalayout (fun _ => true) line_regexec
    (mkEnv true 0
       (Some ["target datalayout = " +:+ String (ascii_of_nat 34) "e-m:e-i64:64"
                +:+ String (ascii_of_nat 34) ""])
       "" 0)
    (mkProbeState true
       [(LOG_DEBUG, "Creating generator program file");
        (LOG_DEBUG, "Compiling generator program to LLVM using clang");
        (LOG_DEBUG, "Running clang with " +:+ quoted "%s");
        (LOG_DEBUG, "Retrieving target datalayout")])
  = Ok "e-m:e-i64:64"
       (mkProbeState true
          [(LOG_DEBUG, "Creating generator program file");
           (LOG_DEBUG, "Compiling generator program to LLVM using clang");
           (LOG_DEBUG, "Running clang with " +:+ quoted "%s");
           (LOG_DEBUG, "Retrieving target datalayout");
           (LOG_DEBUG, "Retrieving target datalayout")]).
Proof.
  apply (datalayout_probe_is_cached (fun _ => true) line_regexec
           (mkEnv true 0
              (Some ["target datalayout = " +:+ String (ascii_of_nat 34) "e-m:e-i64:64"
                       +:+ String (ascii_of_nat 34) ""])
              "" 0)
           (mkProbeState false []) "e-m:e-i64:64").
  reflexivity.
Defined.

Lemma datalayout_first_match_witness :
  exists st' : ProbeState,
    get_target_datalayout (fun _ => true) line_regexec
      (mkEnv true 0
         (Some ["; ModuleID = 'generator.c'";
                "target datalayout = " +:+ String (ascii_of_nat 34) "e-m:e-i64:64"
                  +:+ String (ascii_of_nat 34) "";
                "target triple = x"])
         "" 0)
      (mkProbeState false [])
    = Ok "e-m:e-i64:64" st'.
Proof.
  apply (datalayout_first_match (fun _ => true) line_regexec
           (mkEnv true 0
              (Some ["; ModuleID = 'generator.c'";
                     "target datalayout = " +:+ String (ascii_of_nat 34) "e-m:e-i64:64"
                       +:+ String (ascii_of_nat 34) "";
                     "target triple = x"])
              "" 0)
           (mkProbeState false []) ["; ModuleID = 'generator.c'"] ["target triple = x"]
           ("target datalayout = " +:+ String (ascii_of_nat 34) "e-m:e-i64:64"
              +:+ String (ascii_of_nat 34) "")).
  - reflexivity.
  - reflexivity.
  - reflexivity.
  - repeat constructor.
  - reflexivity.
Defined.

(** * The temporary directory *)

Lemma last_char_app (s : string) (c : ascii) : last_char (s +:+ String c "") = Some c.
Proof.
  induction s as [|a s IH]; [done|].
  change (last_char (String a (s +:+ String c "")) = Some c).
  cbn [last_char]. rewrite IH. by destruct s.
Qed.

(** X16: a directory given with a slash at its end is not used.
    [get_temp_dir] takes the first of [TEMP], [TMP] and [TMPDIR] that is
    set; when its value ends in a slash, the answer is [/tmp/] all the
    same, as when no variable is set. *)
Theorem temp_dir_with_slash_is_ignored (e : Environ) :
  (chosen_tmpdir e = None -> get_temp_dir e = Some Literal_tmp) /\
  (forall s : string,
     chosen_tmpdir e = Some (s +:+ "/") -> get_temp_dir e = Some Literal_tmp) /\
  (forall tmpdir : string, TEMP e = Some tmpdir -> chosen_tmpdir e = Some tmpdir) /\
  (forall tmpdir : string,
     TEMP e = None -> TMP e = Some tmpdir -> chosen_tmpdir e = Some tmpdir) /\
  (TEMP e = None -> TMP e = None -> chosen_tmpdir e = TMPDIR e).
Proof.
  unfold get_temp_dir, chosen_tmpdir. split_and!.
  - by intros ->.
  - intros s ->. by rewrite last_char_app.
  - by intros tmpdir ->.
  - by intros tmpdir -> ->.
  - by intros -> ->.
Qed.

Lemma temp_dir_with_slash_is_ignored_witness :
  get_temp_dir (mkEnviron None (Some "/var/tmp/") (Some "/scratch")) = Some Literal_tmp.
Proof.
  apply (temp_dir_with_slash_is_ignored
           (mkEnviron None (Some "/var/tmp/") (Some "/scratch"))) with (s := "/var/tmp").
  reflexivity.
Defined.

Lemma length_append (s1 s2 : string) :
  String.length (s1 +:+ s2) = (String.length s1 + String.length s2)%nat.
Proof.
  induction s1 as [|a s1 IH]; [done|].
  change (S (String.length (s1 +:+ s2)) = S (String.length s1 + String.length s2)).
  by rewrite IH.
Qed.

(** X17: the buffer that [get_temp_dir] fills is too short. When the
    directory is given without a slash at its end, the text built in the
    buffer ends in a slash and takes, with its terminator, 4 bytes more
    than [malloc] was asked for. *)
Theorem temp_dir_buffer_is_short (e : Environ) (allocated : Z) (formatted : string)
    (Hresult : get_temp_dir e = Some (Formatted (Some allocated) formatted)) :
  (exists tmpdir : string,
     chosen_tmpdir e = Some tmpdir /\ formatted = tmpdir +:+ "/") /\
  (Z.of_nat (String.length formatted) + 1 = allocated + 4)%Z.
Proof.
  unfold get_temp_dir in Hresult.
  destruct (chosen_tmpdir e) as [tmpdir|]; [|done].
  destruct (last_char tmpdir) as [c|]; [|done].
  destruct (negb (c =? "/")%char); [|done].
  injection Hresult as Hsize <-. split; [by exists tmpdir|].
  rewrite length_append. cbn [String.length].
  destruct tmpdir as [|a [|b rest]]; try done.
  cbn [strlen_plus_2 String.length] in *. injection Hsize as <-. lia.
Qed.

Lemma temp_dir_buffer_is_short_witness :
  (Z.of_nat (String.length "/scratch/") + 1 = 6 + 4)%Z.
Proof.
  apply (temp_dir_buffer_is_short (mkEnviron (Some "/scratch") None None) 6 "/scratch/").
  reflexivity.
Defined.

(** * The preamble *)

Section PreambleText.

Variable NEWLINE : string.
Variable regcomp : string -> bool.
Variable regexec : string -> string -> nat -> option string.


End PreambleText.


(** * The scanner *)

Import Scan.

Section Scanner.

Implicit Types (st : ScanState) (c : ascii) (t : Token).

Lemma skip_unfold st :
  skip st = if is_space (next st).1 then skip (next st).2 else next st.
Proof.
  rewrite skip_equation_1. unfold inspect, skip_unfold_clause_1.
  by destruct (is_space (next st).1).
Qed.

Lemma scanint_loop_unfold c (val : Z) st :
  scanint_loop c val st
  = if (0 <=? digit_index c)%Z
    then scanint_loop (next st).1 (wrap_int (val * 10 + digit_index c)) (next st).2
    else (val, put_back_into_stream c st).
Proof.
  rewrite scanint_loop_equation_1. unfold inspect, scanint_loop_unfold_clause_1.
  by destruct (0 <=? digit_index c)%Z.
Qed.

Lemma scan_identifier_loop_unfold c (i : Z) (buf : string) (max_len : Z) st :
  scan_identifier_loop c i buf max_len st
  = if is_valid_identifier_char c i
    then if (max_len - 1 <=? i)%Z
         then syntax_error "Identifier name has exceeded maximum length of %d" st
         else scan_identifier_loop (next st).1 (i + 1)%Z (buf +:+ String c "") max_len
                                   (next st).2
    else Done i (mkScanState (D_INPUT_FILE st) c (D_LINE_NUMBER st) buf).
Proof.
  rewrite scan_identifier_loop_equation_1.
  unfold inspect, scan_identifier_loop_unfold_clause_1.
  by destruct (is_valid_identifier_char c i).
Qed.

(** Either nothing is left and [next] answers the end of the file, or
    [next] makes what is left shorter. *)
Lemma next_cases st :
  (next st = (EOF_char, st) /\ D_INPUT_FILE st = [] /\ D_PUT_BACK st = NUL) \/
  (pending (next st).2 < pending st)%nat.
Proof.
  destruct st as [input pb line buf]. unfold next, pending. cbn [D_INPUT_FILE D_PUT_BACK].
  destruct (pb =? NUL)%char eqn:E; cbn [negb].
  - apply Ascii.eqb_eq in E as ->. destruct input as [|b rest]; [by left|right].
    cbn [snd D_INPUT_FILE D_PUT_BACK length]. rewrite Ascii.eqb_refl. lia.
  - right. cbn [snd D_INPUT_FILE D_PUT_BACK]. rewrite Ascii.eqb_refl. lia.
Qed.

Lemma reads_same st st' :
  D_INPUT_FILE st' = D_INPUT_FILE st -> D_LINE_NUMBER st' = D_LINE_NUMBER st ->
  reads st st'.
Proof. intros H1 H2. exists []. rewrite H1, H2. split; [done|]. unfold count_lf. cbn. lia. Qed.

Lemma reads_refl st : reads st st.
Proof. by apply reads_same. Qed.

Lemma count_lf_app (l1 l2 : list ascii) : count_lf (l1 ++ l2) = (count_lf l1 + count_lf l2)%Z.
Proof. unfold count_lf. rewrite filter_app, length_app. lia. Qed.

Lemma reads_trans st1 st2 st3 : reads st1 st2 -> reads st2 st3 -> reads st1 st3.
Proof.
  intros (l1 & H1 & L1) (l2 & H2 & L2). exists (l1 ++ l2).
  rewrite H1, H2, L2, L1, count_lf_app, <- app_assoc. split; [done|lia].
Qed.

Lemma next_reads st : reads st (next st).2.
Proof.
  destruct st as [input pb line buf]. unfold next. cbn [D_INPUT_FILE D_PUT_BACK].
  destruct (pb =? NUL)%char; cbn [negb]; [|by apply reads_same].
  destruct input as [|b rest]; [apply reads_refl|].
  exists [b]. cbn [snd D_INPUT_FILE D_LINE_NUMBER]. split; [done|].
  unfold count_lf. destruct (b =? LF)%char eqn:E.
  - apply Ascii.eqb_eq in E as ->. by rewrite filter_cons_True.
  - apply Ascii.eqb_neq in E. rewrite filter_cons_False by done. cbn. lia.
Qed.

Lemma skip_reads st : reads st (skip st).2.
Proof.
  remember (pending st) as n eqn:Hn. revert st Hn.
  induction n as [n IH] using lt_wf_ind. intros st ->.
  rewrite skip_unfold. destruct (is_space (next st).1) eqn:E; [|apply next_reads].
  eapply reads_trans; [apply next_reads|].
  destruct (next_cases st) as [(Hnext & _ & _)|Hlt]; [by rewrite Hnext in E|].
  by eapply IH.
Qed.

Lemma strchr_from_found (s : string) c : forall (i : Z) (before after : list ascii),
  bytes s = before ++ c :: after -> c ∉ before ->
  strchr_from s c i = (i + Z.of_nat (length before))%Z.
Proof.
  induction s as [|a s IH]; intros i before after Hs Hbefore.
  - by destruct before.
  - change (bytes (String a s)) with (a :: bytes s) in Hs. cbn [strchr_from].
    destruct before as [|b before]; cbn [app length] in *.
    + injection Hs as -> _. rewrite Ascii.eqb_refl. lia.
    + injection Hs as -> Hs. apply not_elem_of_cons in Hbefore as [Hne Hbefore].
      rewrite (proj2 (Ascii.eqb_neq b c)) by done.
      rewrite (IH (i + 1)%Z before after Hs Hbefore). lia.
Qed.

Lemma strchr_from_missing (s : string) c : forall i : Z,
  c ∉ bytes s ->
  strchr_from s c i
  = if (c =? NUL)%char then (i + Z.of_nat (String.length s))%Z else (-1)%Z.
Proof.
  induction s as [|a s IH]; intros i Hs.
  - cbn [strchr_from String.length]. destruct (c =? NUL)%char; lia.
  - change (bytes (String a s)) with (a :: bytes s) in Hs.
    apply not_elem_of_cons in Hs as [Hne Hs]. cbn [strchr_from String.length].
    rewrite (proj2 (Ascii.eqb_neq a c)) by done. rewrite (IH (i + 1)%Z Hs).
    destruct (c =? NUL)%char; lia.
Qed.

(** X19: [index_of] gives the index of the first occurrence of the
    character, and -1 when there is none, except for [NUL]: as [strchr]
    finds the terminator, the answer for [NUL] is the length of the string,
    so that [scanint] takes a [NUL] byte for a digit of value 10. *)
Theorem index_of_first_occurrence (s : string) c :
  (forall before after : list ascii,
     bytes s = before ++ c :: after -> c ∉ before ->
     index_of s c = Z.of_nat (length before)) /\
  (c ∉ bytes s -> c <> NUL -> index_of s c = (-1)%Z) /\
  (NUL ∉ bytes s -> index_of s NUL = Z.of_nat (String.length s)) /\
  digit_index NUL = 10%Z.
Proof.
  unfold index_of. split_and!.
  - intros before after Hs Hbefore. by rewrite (strchr_from_found s c 0 before after).
  - intros Hs Hc. rewrite strchr_from_missing by done.
    by rewrite (proj2 (Ascii.eqb_neq c NUL)).
  - intros Hs. by rewrite strchr_from_missing.
  - reflexivity.
Qed.

Lemma put_back_reads c st st' : reads st st' -> reads st (put_back_into_stream c st').
Proof. intros H. eapply reads_trans; [exact H|]. by apply reads_same. Qed.

Lemma digit_index_EOF : (0 <=? digit_index EOF_char)%Z = false.
Proof. reflexivity. Qed.

Lemma scanint_loop_reads st : forall c (val : Z), reads st (scanint_loop c val st).2.
Proof.
  remember (pending st) as n eqn:Hn. revert st Hn.
  induction n as [n IH] using lt_wf_ind. intros st -> c val.
  rewrite scanint_loop_unfold.
  destruct (0 <=? digit_index c)%Z; [|apply put_back_reads, reads_refl].
  destruct (next_cases st) as [(Hnext & _ & _)|Hlt].
  - rewrite Hnext. cbn [fst snd]. rewrite scanint_loop_unfold, digit_index_EOF.
    apply put_back_reads, reads_refl.
  - eapply reads_trans; [apply next_reads|]. by eapply IH.
Qed.

Lemma identifier_char_EOF (i : Z) : is_valid_identifier_char EOF_char i = false.
Proof. unfold is_valid_identifier_char. by rewrite andb_false_r. Qed.

Lemma scan_identifier_loop_reads st : forall c (i : Z) (buf : string) (max_len : Z),
  reads st (scanned_state (scan_identifier_loop c i buf max_len st)).
Proof.
  remember (pending st) as n eqn:Hn. revert st Hn.
  induction n as [n IH] using lt_wf_ind. intros st -> c i buf max_len.
  rewrite scan_identifier_loop_unfold.
  destruct (is_valid_identifier_char c i); [|by apply reads_same].
  destruct (max_len - 1 <=? i)%Z; [apply reads_refl|].
  destruct (next_cases st) as [(Hnext & _ & _)|Hlt].
  - rewrite Hnext. cbn [fst snd]. rewrite scan_identifier_loop_unfold, identifier_char_EOF.
    by apply reads_same.
  - eapply reads_trans; [apply next_reads|]. by eapply IH.
Qed.

Lemma is_space_not_LF c : is_space c = false -> (c =? LF)%char = false.
Proof.
  unfold is_space. intros H. destruct (c =? LF)%char; [|done].
  by rewrite orb_true_r in H.
Qed.

Lemma count_lf_cons c (l : list ascii) :
  count_lf (c :: l) = ((if (c =? LF)%char then 1 else 0) + count_lf l)%Z.
Proof.
  unfold count_lf. destruct (c =? LF)%char eqn:E.
  - apply Ascii.eqb_eq in E as ->. rewrite filter_cons_True by done. cbn [length]. lia.
  - apply Ascii.eqb_neq in E. by rewrite filter_cons_False.
Qed.

Lemma count_lf_nil : count_lf [] = 0%Z.
Proof. reflexivity. Qed.

Lemma skip_blanks_file (ws : list ascii) : forall (rest : list ascii) (line : Z) (buf : string),
  Forall (fun c => is_space c = true) ws ->
  is_space (hd EOF_char rest) = false ->
  skip (mkScanState (ws ++ rest) NUL line buf)
  = (hd EOF_char rest, mkScanState (tl rest) NUL (line + count_lf ws) buf).
Proof.
  induction ws as [|w ws IH]; intros rest line buf Hws Hrest.
  - rewrite skip_unfold. unfold next. cbn [D_PUT_BACK D_INPUT_FILE app negb].
    rewrite Ascii.eqb_refl. cbn [negb]. rewrite count_lf_nil, Z.add_0_r.
    destruct rest as [|c rest]; cbn [hd tl fst] in *.
    + by rewrite Hrest.
    + by rewrite Hrest, (is_space_not_LF c Hrest).
  - apply Forall_cons_1 in Hws as [Hw Hws].
    rewrite skip_unfold. unfold next. cbn [D_PUT_BACK D_INPUT_FILE app negb].
    rewrite Ascii.eqb_refl. cbn [negb fst snd]. rewrite Hw.
    cbn [D_LINE_NUMBER D_IDENTIFIER_BUFFER D_PUT_BACK].
    rewrite IH by done. rewrite count_lf_cons. do 2 f_equal.
    destruct (w =? LF)%char; lia.
Qed.

Lemma skip_not_blank st : is_space (skip st).1 = false.
Proof.
  remember (pending st) as n eqn:Hn. revert st Hn.
  induction n as [n IH] using lt_wf_ind. intros st ->.
  rewrite skip_unfold. destruct (is_space (next st).1) eqn:E; [|done].
  destruct (next_cases st) as [(Hnext & _ & _)|Hlt]; [by rewrite Hnext in E|].
  by eapply IH.
Qed.

Lemma skip_blanks_any (ws rest : list ascii) (pb : ascii) (line : Z) (buf : string) :
  pb = NUL \/ is_space pb = true ->
  Forall (fun c => is_space c = true) ws ->
  is_space (hd EOF_char rest) = false ->
  skip (mkScanState (ws ++ rest) pb line buf)
  = (hd EOF_char rest, mkScanState (tl rest) NUL (line + count_lf ws) buf).
Proof.
  intros Hpb Hws Hrest.
  destruct Hpb as [->|Hpb]; [by apply skip_blanks_file|].
  assert ((pb =? NUL)%char = false) as E.
  { destruct (pb =? NUL)%char eqn:E; [|done]. apply Ascii.eqb_eq in E as ->. done. }
  rewrite skip_unfold. unfold next. cbn [D_PUT_BACK D_INPUT_FILE]. rewrite E.
  cbn [negb fst snd]. rewrite Hpb. cbn [D_LINE_NUMBER D_IDENTIFIER_BUFFER].
  by apply skip_blanks_file.
Qed.



(** A decimal digit is no blank, no operator and not the end of the file. *)
Lemma isdigit_class c :
  isdigit c = true ->
  is_space c = false /\ (c =? EOF_char)%char = false /\ (c =? LF)%char = false /\
  (c =? "+")%char = false /\ (c =? "-")%char = false /\ (c =? "*")%char = false /\
  (c =? "/")%char = false /\ (c =? ";")%char = false /\
  (0 <= digit_index c <= 9)%Z.
Proof.
  destruct c as [[] [] [] [] [] [] [] []]; intros H; try discriminate H;
    vm_compute; repeat split; congruence.
Qed.

Lemma pretty_N_char_digit (x : N) :
  (x < 10)%N ->
  isdigit (pretty_N_char x) = true /\ digit_index (pretty_N_char x) = Z.of_N x.
Proof.
  intros Hx.
  assert (x = 0 \/ x = 1 \/ x = 2 \/ x = 3 \/ x = 4 \/ x = 5 \/ x = 6 \/ x = 7
          \/ x = 8 \/ x = 9)%N as H by lia.
  repeat (destruct H as [->|H]; [by vm_compute|]). by subst.
Qed.

Lemma bytes_app (s1 s2 : string) : bytes (s1 +:+ s2) = bytes s1 ++ bytes s2.
Proof. unfold bytes. induction s1 as [|a s1 IH]; [done|]. cbn. by rewrite <- IH. Qed.

Lemma decimal_app (l1 l2 : list ascii) (v : Z) :
  decimal (l1 ++ l2) v = decimal l2 (decimal l1 v).
Proof. unfold decimal. apply foldl_app. Qed.

(** The digits that [pretty] writes in front of [s], and their value. *)
Lemma pretty_N_go_digits (x : N) : forall s : string,
  exists digits : list ascii,
    bytes (pretty_N_go x s) = digits ++ bytes s /\
    Forall (fun c => isdigit c = true) digits /\
    (forall v : Z, decimal digits v = (v * 10 ^ Z.of_nat (length digits) + Z.of_N x)%Z) /\
    (0 < x -> digits <> [])%N.
Proof.
  induction (N.lt_wf_0 x) as [x _ IH]. intros s.
  destruct (decide (x = 0)%N) as [->|Hx].
  - exists []. rewrite pretty_N_go_0. split_and!; [done|constructor| |lia].
    intros v. cbn. lia.
  - rewrite pretty_N_go_step by lia.
    destruct (IH (x `div` 10)%N ltac:(apply N.div_lt; lia)
                 (String (pretty_N_char (x `mod` 10)) s))
      as (digits & Hbytes & Hdigits & Hvalue & _).
    destruct (pretty_N_char_digit (x `mod` 10)%N ltac:(by apply N.mod_lt)) as [Hd Hi].
    exists (digits ++ [pretty_N_char (x `mod` 10)]).
    split_and!.
    + rewrite Hbytes, <- app_assoc. done.
    + apply Forall_app. split; [done|]. by repeat constructor.
    + intros v. rewrite decimal_app, Hvalue. unfold decimal at 1. cbn [foldl].
      rewrite Hi, length_app. cbn [length].
      replace (Z.of_nat (length digits + 1)) with (Z.of_nat (length digits) + 1)%Z by lia.
      rewrite Z.pow_add_r by lia.
      pose proof (N.div_mod x 10 ltac:(done)) as Hdm.
      assert (Z.of_N x = 10 * Z.of_N (x `div` 10) + Z.of_N (x `mod` 10))%Z as -> by lia.
      lia.
    + intros _. by destruct digits.
Qed.

Lemma pretty_N_digits (n : N) :
  exists (d : ascii) (digits : list ascii),
    bytes (pretty n) = d :: digits /\
    Forall (fun c => isdigit c = true) (d :: digits) /\
    decimal (d :: digits) 0 = Z.of_N n.
Proof.
  unfold pretty, pretty_N. case_decide as Hn.
  - subst n. exists "0"%char, []. split_and!; [done|by repeat constructor|done].
  - destruct (pretty_N_go_digits n "") as (digits & Hbytes & Hdigits & Hvalue & Hne).
    rewrite app_nil_r in Hbytes. destruct digits as [|d digits]; [by destruct Hne; [lia|]|].
    exists d, digits. split_and!; [done|done|]. rewrite Hvalue. lia.
Qed.

Lemma decimal_ge (digits : list ascii) : forall v : Z,
  Forall (fun c => isdigit c = true) digits -> (0 <= v)%Z -> (v <= decimal digits v)%Z.
Proof.
  induction digits as [|d digits IH]; intros v Hdigits Hv; [done|].
  apply Forall_cons_1 in Hdigits as [Hd Hdigits].
  destruct (isdigit_class d Hd) as (_ & _ & _ & _ & _ & _ & _ & _ & Hi).
  change (decimal (d :: digits) v) with (decimal digits (v * 10 + digit_index d)%Z).
  etrans; [|apply IH; [done|lia]]. lia.
Qed.

Lemma wrap_int_small (x : Z) : (0 <= x <= INT_MAX)%Z -> wrap_int x = x.
Proof.
  unfold INT_MAX, wrap_int. intros H. rewrite Z.mod_small; lia.
Qed.

(** [scanint] on a digit followed by the digits [digits] and then by
    something else: the value read, the next character put back. *)
Lemma scanint_loop_digits (digits : list ascii) :
  forall c (val : Z) (rest : list ascii) (line : Z) (buf : string),
    isdigit c = true ->
    Forall (fun c => isdigit c = true) digits ->
    (0 <= val)%Z ->
    (decimal (c :: digits) val <= INT_MAX)%Z ->
    (0 <=? digit_index (hd EOF_char rest))%Z = false ->
    scanint_loop c val (mkScanState (digits ++ rest) NUL line buf)
    = (decimal (c :: digits) val,
       mkScanState (tl rest) (hd EOF_char rest)
                   (line + if (hd EOF_char rest =? LF)%char then 1 else 0) buf).
Proof.
  induction digits as [|d digits IH]; intros c val rest line buf Hc Hdigits Hval Hmax Hrest.
  - destruct (isdigit_class c Hc) as (_ & _ & _ & _ & _ & _ & _ & _ & Hi).
    change (decimal [c] val) with (val * 10 + digit_index c)%Z in *.
    rewrite scanint_loop_unfold. rewrite (proj2 (Z.leb_le _ _)) by lia.
    rewrite wrap_int_small by lia.
    unfold next. cbn [D_PUT_BACK D_INPUT_FILE app]. rewrite Ascii.eqb_refl. cbn [negb].
    destruct rest as [|r rest]; cbn [hd tl fst snd] in *;
      rewrite scanint_loop_unfold, Hrest; unfold put_back_into_stream;
      cbn [D_INPUT_FILE D_LINE_NUMBER D_IDENTIFIER_BUFFER].
    + do 2 f_equal. cbn. lia.
    + do 2 f_equal. destruct (r =? LF)%char; lia.
  - apply Forall_cons_1 in Hdigits as [Hd Hdigits].
    destruct (isdigit_class c Hc) as (_ & _ & _ & _ & _ & _ & _ & _ & Hi).
    destruct (isdigit_class d Hd) as (_ & _ & HdLF & _).
    change (decimal (c :: d :: digits) val)
      with (decimal (d :: digits) (val * 10 + digit_index c)%Z) in *.
    pose proof (decimal_ge (d :: digits) (val * 10 + digit_index c)%Z
                  ltac:(by constructor) ltac:(lia)).
    rewrite scanint_loop_unfold. rewrite (proj2 (Z.leb_le _ _)) by lia.
    rewrite wrap_int_small by lia.
    unfold next. cbn [D_PUT_BACK D_INPUT_FILE app]. rewrite Ascii.eqb_refl.
    cbn [negb fst snd]. rewrite HdLF. cbn [D_LINE_NUMBER D_IDENTIFIER_BUFFER D_PUT_BACK].
    apply IH; [done|done|lia|done|done].
Qed.

(** A character that may start an identifier is no blank, no digit, no
    operator and not the end of the file; one that may go on an identifier
    is no line feed. *)
Lemma identifier_start_class c :
  is_valid_identifier_char c 0 = true ->
  is_space c = false /\ (c =? EOF_char)%char = false /\
  (c =? "+")%char = false /\ (c =? "-")%char = false /\ (c =? "*")%char = false /\
  (c =? "/")%char = false /\ (c =? ";")%char = false /\ isdigit c = false.
Proof.
  destruct c as [[] [] [] [] [] [] [] []]; intros H; try discriminate H;
    vm_compute; repeat split; congruence.
Qed.

Lemma identifier_char_not_LF c : identifier_char c = true -> (c =? LF)%char = false.
Proof. destruct c as [[] [] [] [] [] [] [] []]; intros H; try discriminate H; done. Qed.

Lemma identifier_char_later c (i : Z) :
  i <> 0%Z -> is_valid_identifier_char c i = identifier_char c.
Proof.
  intros Hi. unfold identifier_char, is_valid_identifier_char.
  by rewrite (proj2 (Z.eqb_neq i 0) Hi).
Qed.

Lemma identifier_start_char c : is_valid_identifier_char c 0 = true -> identifier_char c = true.
Proof. destruct c as [[] [] [] [] [] [] [] []]; intros H; try discriminate H; done. Qed.

Lemma append_char (buf : string) c (s : string) :
  (buf +:+ String c "") +:+ s = buf +:+ String c s.
Proof.
  induction buf as [|a buf IH]; [done|].
  change (String a ((buf +:+ String c "") +:+ s) = String a (buf +:+ String c s)).
  by rewrite IH.
Qed.

(** [scan_identifier] on an identifier character followed by the
    identifier characters [cs] and then by something else, when the buffer
    is long enough. *)
Lemma scan_identifier_loop_chars (cs : list ascii) :
  forall c (i : Z) (buf : string) (max_len : Z) (rest : list ascii) (line : Z) (old : string),
    is_valid_identifier_char c i = true ->
    Forall (fun c => identifier_char c = true) cs ->
    (0 <= i)%Z ->
    (i + Z.of_nat (length cs) < max_len - 1)%Z ->
    identifier_char (hd EOF_char rest) = false ->
    scan_identifier_loop c i buf max_len (mkScanState (cs ++ rest) NUL line old)
    = Done (i + 1 + Z.of_nat (length cs))%Z
           (mkScanState (tl rest) (hd EOF_char rest)
                        (line + if (hd EOF_char rest =? LF)%char then 1 else 0)
                        (buf +:+ String.string_of_list_ascii (c :: cs))).
Proof.
  induction cs as [|d cs IH]; intros c i buf max_len rest line old Hc Hcs Hi Hlen Hrest.
  - cbn [length app] in *. rewrite scan_identifier_loop_unfold, Hc.
    rewrite (proj2 (Z.leb_gt _ _)) by lia.
    unfold next. cbn [D_PUT_BACK D_INPUT_FILE]. rewrite Ascii.eqb_refl. cbn [negb].
    destruct rest as [|r rest]; cbn [hd tl fst snd] in *;
      rewrite scan_identifier_loop_unfold, identifier_char_later, Hrest by lia;
      cbn [D_INPUT_FILE D_LINE_NUMBER]; f_equal; try lia; f_equal.
    + cbn. lia.
    + destruct (r =? LF)%char; lia.
  - apply Forall_cons_1 in Hcs as [Hd Hcs]. cbn [length app] in *.
    rewrite scan_identifier_loop_unfold, Hc.
    rewrite (proj2 (Z.leb_gt _ _)) by lia.
    unfold next. cbn [D_PUT_BACK D_INPUT_FILE]. rewrite Ascii.eqb_refl.
    cbn [negb fst snd]. rewrite (identifier_char_not_LF d Hd).
    cbn [D_LINE_NUMBER D_IDENTIFIER_BUFFER D_PUT_BACK].
    rewrite IH; [|by rewrite identifier_char_later by lia|done|lia|lia|done].
    f_equal; [lia|]. f_equal. cbn [String.string_of_list_ascii]. by rewrite append_char.
Qed.

(** An identifier that does not leave room for the terminator. *)
Lemma scan_identifier_loop_long (cs : list ascii) :
  forall c (i : Z) (buf : string) (max_len : Z) (rest : list ascii) (line : Z) (old : string),
    is_valid_identifier_char c i = true ->
    Forall (fun c => identifier_char c = true) cs ->
    (0 <= i)%Z ->
    (max_len - 1 <= i + Z.of_nat (length cs))%Z ->
    exists st' : ScanState,
      scan_identifier_loop c i buf max_len (mkScanState (cs ++ rest) NUL line old)
      = Syntax_error line "Identifier name has exceeded maximum length of %d" st'.
Proof.
  induction cs as [|d cs IH]; intros c i buf max_len rest line old Hc Hcs Hi Hlen.
  - cbn [length] in Hlen. rewrite scan_identifier_loop_unfold, Hc.
    rewrite (proj2 (Z.leb_le _ _)) by lia. by eexists.
  - apply Forall_cons_1 in Hcs as [Hd Hcs]. cbn [length app] in *.
    rewrite scan_identifier_loop_unfold, Hc.
    destruct (max_len - 1 <=? i)%Z eqn:E; [by eexists|]. apply Z.leb_gt in E.
    unfold next. cbn [D_PUT_BACK D_INPUT_FILE]. rewrite Ascii.eqb_refl.
    cbn [negb fst snd]. rewrite (identifier_char_not_LF d Hd).
    cbn [D_LINE_NUMBER D_IDENTIFIER_BUFFER D_PUT_BACK].
    apply IH; [by rewrite identifier_char_later by lia|done|lia|lia].
Qed.

Lemma length_append_char (buf : string) c :
  String.length (buf +:+ String c "") = S (String.length buf).
Proof.
  induction buf as [|a buf IH]; [done|].
  change (S (String.length (buf +:+ String c "")) = S (S (String.length buf))).
  by rewrite IH.
Qed.

(** Whatever the file holds, the index returned leaves room for the
    terminator, and the buffer holds that many characters. *)
Lemma scan_identifier_loop_bound st :
  forall c (i : Z) (buf : string) (max_len : Z) (j : Z) (st' : ScanState),
    Z.of_nat (String.length buf) = i ->
    scan_identifier_loop c i buf max_len st = Done j st' ->
    (i <= j)%Z /\ (j = i \/ j <= max_len - 1)%Z /\
    Z.of_nat (String.length (D_IDENTIFIER_BUFFER st')) = j.
Proof.
  remember (pending st) as n eqn:Hn. revert st Hn.
  induction n as [n IH] using lt_wf_ind. intros st -> c i buf max_len j st' Hbuf.
  rewrite scan_identifier_loop_unfold.
  destruct (is_valid_identifier_char c i).
  2: { intros [= <- <-]. cbn. split_and!; [lia|by left|done]. }
  destruct (max_len - 1 <=? i)%Z eqn:E; [done|]. apply Z.leb_gt in E.
  assert (Z.of_nat (String.length (buf +:+ String c "")) = (i + 1)%Z) as Hbuf'.
  { rewrite length_append_char. lia. }
  destruct (next_cases st) as [(Hnext & _ & _)|Hlt].
  - rewrite Hnext. cbn [fst snd]. rewrite scan_identifier_loop_unfold, identifier_char_EOF.
    intros [= <- <-]. cbn [D_IDENTIFIER_BUFFER]. split_and!; [lia|right; lia|done].
  - intros H. destruct (IH _ Hlt _ eq_refl _ _ _ _ _ _ Hbuf' H) as (H1 & H2 & H3).
    split_and!; [lia|right; lia|done].
Qed.

Section Keywords.

Variable TTS_PRINT : string.
Variable D_MAX_IDENTIFIER_LENGTH : Z.


Lemma parse_keyword_eq c (s : string) :
  parse_keyword TTS_PRINT (String c s)
  = if (c =? "p")%char
    then if String.eqb (String c s) TTS_PRINT then Some T_PRINT else None
    else None.
Proof. destruct c as [[] [] [] [] [] [] [] []]; reflexivity. Qed.







(** X7: the identifier buffer is never overrun. When [scan_identifier]
    returns, the length it returns is below [max_len] (so that the
    terminator is stored inside the first [max_len] bytes) and the buffer
    holds that many characters; an identifier of more than [max_len - 1]
    characters ends the compilation with a syntax error instead. *)
Theorem scan_identifier_fits (max_len : Z) (Hmax : (1 <= max_len)%Z) :
  (forall c st (j : Z) (st' : ScanState),
     scan_identifier c max_len st = Done j st' ->
     (0 <= j < max_len)%Z /\
     Z.of_nat (String.length (D_IDENTIFIER_BUFFER st')) = j) /\
  (forall c (cs rest : list ascii) (line : Z) (old : string),
     is_valid_identifier_char c 0 = true ->
     Forall (fun c => identifier_char c = true) cs ->
     (max_len - 1 < Z.of_nat (length (c :: cs)))%Z ->
     exists st' : ScanState,
       scan_identifier c max_len (mkScanState (cs ++ rest) NUL line old)
       = Syntax_error line "Identifier name has exceeded maximum length of %d" st').
Proof.
  split.
  - intros c st j st' H.
    destruct (scan_identifier_loop_bound st c 0 "" max_len j st' eq_refl H) as (H1 & H2 & H3).
    split; [lia|done].
  - intros c cs rest line old Hc Hcs Hlen. cbn [length] in Hlen.
    apply scan_identifier_loop_long; [done|done|lia|lia].
Qed.


End Keywords.

End Scanner.




Lemma index_of_first_occurrence_witness :
  index_of "0123456789" "7" = 7%Z /\ index_of "0123456789" "a" = (-1)%Z.
Proof.
  split.
  - destruct (index_of_first_occurrence "0123456789" "7") as [H _].
    apply (H (bytes "0123456") (bytes "89")); [reflexivity|].
    unfold bytes. cbn [String.list_ascii_of_string]. rewrite !not_elem_of_cons.
    repeat split; try discriminate. apply not_elem_of_nil.
  - destruct (index_of_first_occurrence "0123456789" "a") as (_ & H & _).
    apply H; [|discriminate].
    unfold bytes. cbn [String.list_ascii_of_string]. rewrite !not_elem_of_cons.
    repeat split; try discriminate. apply not_elem_of_nil.
Defined.


Lemma scan_identifier_fits_witness :
  exists st' : ScanState,
    scan_identifier "a" 4 (mkScanState (bytes "bcd+") NUL 1 "")
    = Syntax_error 1 "Identifier name has exceeded maximum length of %d" st'.
Proof.
  destruct (scan_identifier_fits 4 ltac:(done)) as [_ H].
  apply (H "a"%char (bytes "bcd") (bytes "+") 1%Z "").
  - reflexivity.
  - repeat constructor.
  - vm_compute. reflexivity.
Defined.

